(** * Koenote client: upload-and-poll workflow of [frontend/src/app/page.tsx]

    A shallow embedding of the recording page's processing pipeline:
    [createChunks], [uploadChunks], [processAudio], [startPolling] (with the
    interval callback), [resetState], [startRecording] and [fetchRecordings],
    and of the handlers around it: [handleKeywordsChange],
    [handleSelectRecording] with [fetchRecording], [handleDelete],
    [saveRecording], [handleAudioEnded], the cancel button of the edit form
    and the [AudioPlayer] component, together with the part of the browser
    they run against (JSON values, [fetch], timers, the console and React's
    [useState] cells).

    Conventions.
    - JavaScript values that come off the network are dynamically typed, so
      every [useState] cell holds a [value]; TypeScript annotations are erased.
    - JSON numbers are restricted to integers ([Z]).  A number is printed in
      decimal when it is a safe integer; how the engine prints the others
      (rounded to a double, in exponent form from 1e21 on) is taken from the
      platform.
    - [processAudio] and the uploads it awaits run to completion within one
      event, against a [network] that answers each request in turn.  The
      interval callback and [fetchRecordings] are split at their [await fetch]:
      the part before it runs when the function is called, the part after it
      when the answer is delivered, so other events can come in between.
    - React commits queued state updates and runs effect clean-ups before the
      next event is delivered; the model applies an update where the setter is
      called, which gives the same state at the end of every handler. *)

From Stdlib Require Import Strings.Byte Strings.Ascii.
From stdpp Require Import base functions gmap strings list pretty.

Set Warnings "-register-all".

(** ** JavaScript values *)

Inductive value : Type :=
  | VUndef
  | VNull
  | VBool (b : bool)
  | VNum (n : Z)
  | VStr (s : string)
  | VArr (items : list value)
  | VObj (fields : list (string * value)).

Inductive exn : Type :=
  | Error (message : string)
  | TypeError (message : string)
  | SyntaxError (message : string).

#[global] Instance exn_eq_dec : EqDecision exn.
Proof. solve_decision. Defined.

(** [error instanceof Error ? error.message : ""]: every exception raised in
    the modelled code is an [Error] instance. *)
Definition message (e : exn) : string :=
  match e with
  | Error m | TypeError m | SyntaxError m => m
  end.

Inductive outcome (A : Type) : Type :=
  | Ret (a : A)
  | Throw (e : exn).
Arguments Ret {A} a.
Arguments Throw {A} e.

(** ToBoolean *)
Definition truthy (v : value) : bool :=
  match v with
  | VUndef | VNull => false
  | VBool b => b
  | VNum n => negb (n =? 0)%Z
  | VStr s => negb (String.eqb s "")
  | VArr _ | VObj _ => true
  end.

(** [a || b] *)
Definition js_or (a b : value) : value := if truthy a then a else b.

Fixpoint lookup_field (k : string) (fields : list (string * value)) : value :=
  match fields with
  | [] => VUndef
  | (k', v) :: rest => if String.eqb k k' then v else lookup_field k rest
  end.

(** Property read [v.k] for a key [k] that no prototype defines (all keys read
    by the page except [length] and the methods, which have their own
    definitions below).  Messages of engine-raised errors follow V8. *)
Definition get (v : value) (k : string) : outcome value :=
  match v with
  | VUndef =>
      Throw (TypeError ("Cannot read properties of undefined (reading '" +:+ k +:+ "')"))
  | VNull =>
      Throw (TypeError ("Cannot read properties of null (reading '" +:+ k +:+ "')"))
  | VObj fields => Ret (lookup_field k fields)
  | _ => Ret VUndef
  end.

(** [v === lit] for a string literal *)
Definition strict_eq_str (v : value) (lit : string) : bool :=
  match v with VStr s => String.eqb s lit | _ => false end.

(** ** The platform *)

(** Build-time configuration ([process.env.NEXT_PUBLIC_...]) and the pieces of
    the platform that are taken as given. *)
Class Platform : Type := {
  KOENOTE_API_URL : string;
  AUDIO_BUCKET_NAME : string;
  (** [JSON.parse]; a [Throw] carries the engine's [SyntaxError]. *)
  JSON_parse : string -> outcome value;
  (** [Date.now()], as a function of how many requests have been issued. *)
  Date_now : nat -> Z;
  (** Whether ToNumber of a string is greater than zero. *)
  StringToNumber_gt0 : string -> bool;
  (** [Number::toString] of a number that is not a safe integer: the engine
      rounds it to a double and prints the shortest digits that read back as
      that double, in exponent form from 1e21 on. *)
  Number_toString_unsafe : Z -> string;
  (** [Array.prototype.sort] under the comparator of [fetchRecordings], which
      orders by [new Date(`${date} ${start_time}`)], latest first. *)
  sortByDateDesc : list value -> list value;
  (** The error that ends the sort when the comparator throws different
      errors on different entries: which entry it is called on first is the
      engine's choice. *)
  sort_first_error : list value -> exn
}.

Section Conversions.

Context `{Platform}.

(** [Number.MAX_SAFE_INTEGER], 2^53 - 1 *)
Definition MAX_SAFE_INTEGER : Z := 9007199254740991.

(** [Number::toString]: a safe integer is printed in decimal. *)
Definition Number_toString (n : Z) : string :=
  if (Z.abs n <=? MAX_SAFE_INTEGER)%Z then pretty n else Number_toString_unsafe n.

(** Whether an object has an own property [k]. *)
Definition has_own (k : string) (fields : list (string * value)) : bool :=
  existsb (fun kv => String.eqb k (fst kv)) fields.

Definition msg_not_primitive : string := "Cannot convert object to primitive value".

(** ToString, as used by template literals, by [Array.prototype.join] and by
    [fetch] on its first argument.  An object is converted by its [toString]
    and then its [valueOf]: an own [toString] of an object that came from JSON
    is not callable and the inherited [valueOf] gives back the object, so the
    conversion throws; without an own [toString] the inherited one applies.
    An array is converted by [join]. *)
Fixpoint ToString (v : value) : outcome string :=
  match v with
  | VUndef => Ret "undefined"
  | VNull => Ret "null"
  | VBool true => Ret "true"
  | VBool false => Ret "false"
  | VNum n => Ret (Number_toString n)
  | VStr s => Ret s
  | VArr items =>
      (fix join (l : list value) : outcome string :=
         match l with
         | [] => Ret ""
         | x :: r =>
             match (match x with VUndef | VNull => Ret "" | _ => ToString x end) with
             | Throw e => Throw e
             | Ret sx =>
                 match r with
                 | [] => Ret sx
                 | _ :: _ =>
                     match join r with
                     | Throw e => Throw e
                     | Ret sr => Ret (sx +:+ "," +:+ sr)
                     end
                 end
             end
         end) items
  | VObj fields =>
      if has_own "toString" fields then Throw (TypeError msg_not_primitive)
      else Ret "[object Object]"
  end.

(** [items.join(sep)] *)
Fixpoint join_with (sep : string) (items : list value) : outcome string :=
  match items with
  | [] => Ret ""
  | x :: r =>
      match (match x with VUndef | VNull => Ret "" | _ => ToString x end) with
      | Throw e => Throw e
      | Ret sx =>
          match r with
          | [] => Ret sx
          | _ :: _ =>
              match join_with sep r with
              | Throw e => Throw e
              | Ret sr => Ret (sx +:+ sep +:+ sr)
              end
          end
      end
  end.

(** [v > 0]: ToPrimitive with hint number tries [valueOf] and then
    [toString], which for objects and arrays comes to ToString. *)
Definition js_gt0 (v : value) : outcome bool :=
  match v with
  | VUndef | VNull => Ret false
  | VBool b => Ret b
  | VNum n => Ret (0 <? n)%Z
  | VStr s => Ret (StringToNumber_gt0 s)
  | VArr _ =>
      match ToString v with
      | Ret s => Ret (StringToNumber_gt0 s)
      | Throw e => Throw e
      end
  | VObj fields =>
      if has_own "toString" fields then Throw (TypeError msg_not_primitive)
      else Ret false
  end.

(** [v.length > 0] for a truthy [v] *)
Definition length_gt0 (v : value) : outcome bool :=
  match v with
  | VArr items => Ret (negb (Nat.eqb (length items) 0))
  | VStr s => Ret (negb (String.eqb s ""))
  | VObj fields => js_gt0 (lookup_field "length" fields)
  | _ => Ret false
  end.

(** [v && v.length > 0] *)
Definition nonempty (v : value) : outcome bool :=
  if truthy v then length_gt0 v else Ret false.

(** The text of a value, when it has one. *)
Definition printed (v : value) : option string :=
  match ToString v with
  | Ret s => Some s
  | Throw _ => None
  end.

End Conversions.

(** ** Strings *)

(** [s.includes(needle)] *)
Fixpoint includes (needle s : string) : bool :=
  if String.prefix needle s then true
  else match s with
       | EmptyString => false
       | String _ s' => includes needle s'
       end.

(** [s.split(sep)] for a one-character separator: never empty. *)
Fixpoint split_on (sep : ascii) (s : string) : list string :=
  match s with
  | EmptyString => [EmptyString]
  | String a r =>
      let segs := split_on sep r in
      if Ascii.eqb a sep then EmptyString :: segs
      else match segs with
           | h :: t => String a h :: t
           | [] => [String a EmptyString]
           end
  end.

(** [arr.pop()] on an array of strings, as a value *)
Definition pop (segs : list string) : value :=
  match last segs with
  | None => VUndef
  | Some s => VStr s
  end.

(** ** Network *)

Record Blob : Type := mkBlob {
  blob_type : string;
  blob_bytes : list byte
}.

Definition blob_size (b : Blob) : Z := Z.of_nat (length (blob_bytes b)).

Inductive body : Type :=
  | NoBody
  | JsonBody (payload : value)     (* JSON.stringify(payload) *)
  | BlobBody (b : Blob).

Record request : Type := mkRequest {
  req_method : string;
  req_url : string;
  req_headers : list (string * string);
  req_body : body
}.

(** A response: its status and what [response.json()] settles to. *)
Record response : Type := mkResponse {
  resp_status : Z;
  resp_json : outcome value
}.

(** [response.ok] *)
Definition ok (r : response) : bool :=
  (200 <=? resp_status r)%Z && (resp_status r <=? 299)%Z.

(** What the network answers to the [n]-th request issued by the page; a
    rejected [fetch] is a [Throw]. *)
Definition network : Type := nat -> request -> outcome response.

(** ** The page's state *)

(** The [useState] cells of [KoenotoApp] that the pipeline reads or writes. *)
Inductive cell : Type :=
  | Status | SelectedRecording | Recordings | IsEditingBeforeSave
  | Title | Transcript | Summary | Keywords
  | RecordingDuration | UploadedAudioUrl | AudioChunks | CurrentChunkIndex
  | ShowAudioPlayer | ExecutionArn | ProcessingStatus | PollingInterval
  | ErrorMessage | IsRecording.

#[global] Instance cell_eq_dec : EqDecision cell.
Proof. solve_decision. Defined.

(** One constructor per [console.log] / [console.error] call site, carrying
    the data the call interpolates (sizes in bytes). *)
Inductive console_entry : Type :=
  | LogUploading (i : nat) (contentType : string) (size : Z)
  | LogPresignedResponse (presignedData : value)
  | ErrInvalidPresigned (presignedData : value)
  | LogGotPresigned (i : nat) (key : value)
  | LogUploaded (i : nat) (key : value)
  | ErrUploadingChunk (i : nat) (error : exn)
  | LogNotSplitting (size : Z)
  | LogCreatingChunks (size : Z)
  | LogSplitting (size : Z)
  | LogProcessingAudio (type : string) (size : Z)
  | LogCreatedChunks (n : nat)
  | LogUploadedChunks (keys : list value)
  | ErrApi (errorData : value)
  | LogProcessResponse (result : value)
  | ErrProcessing (error : exn)
  | LogPollStatus (data : value)
  | LogParsedResult (resultData : value)
  | ErrResultParse (e : exn)
  | ErrStatusFetch (error : exn)
  | ErrStartRecording.

(** A live interval timer: the execution id its callback closes over and its
    period in milliseconds. *)
Record timer : Type := mkTimer {
  timer_arn : value;
  timer_period : Z
}.

(** A request whose continuation has not run yet. *)
Inductive pending : Type :=
  | PendingTick (interval : Z) (executionArn : value)
  | PendingList.

Record world : Type := mkWorld {
  cells : cell -> value;
  timers : gmap Z timer;        (* the browser's table of live intervals *)
  nextTimer : Z;                (* next handle [setInterval] hands out *)
  inflight : list pending;
  requests : list request;      (* every request issued so far, in order *)
  console : list console_entry
}.

Definition with_cells (f : cell -> value) (w : world) : world :=
  mkWorld f (timers w) (nextTimer w) (inflight w) (requests w) (console w).
Definition with_timers (t : gmap Z timer) (w : world) : world :=
  mkWorld (cells w) t (nextTimer w) (inflight w) (requests w) (console w).
Definition with_nextTimer (n : Z) (w : world) : world :=
  mkWorld (cells w) (timers w) n (inflight w) (requests w) (console w).
Definition with_inflight (p : list pending) (w : world) : world :=
  mkWorld (cells w) (timers w) (nextTimer w) p (requests w) (console w).
Definition with_requests (r : list request) (w : world) : world :=
  mkWorld (cells w) (timers w) (nextTimer w) (inflight w) r (console w).
Definition with_console (c : list console_entry) (w : world) : world :=
  mkWorld (cells w) (timers w) (nextTimer w) (inflight w) (requests w) c.

(** The initial values passed to [useState]; handles start at 1, so a handle
    is always truthy. *)
Definition initial_cells (c : cell) : value :=
  match c with
  | Status | Title | Transcript | Summary | UploadedAudioUrl => VStr ""
  | SelectedRecording | ExecutionArn | ProcessingStatus | PollingInterval
  | ErrorMessage => VNull
  | Recordings | Keywords | AudioChunks => VArr []
  | IsEditingBeforeSave | ShowAudioPlayer | IsRecording => VBool false
  | RecordingDuration => VStr "0:00"
  | CurrentChunkIndex => VNum 0
  end.

Definition initial_world : world :=
  mkWorld initial_cells ∅ 1%Z [] [] [].

(** ** A state-and-exception monad for handlers *)

Definition M (A : Type) : Type := world -> outcome A * world.

#[global] Instance M_ret : MRet M := fun A a w => (Ret a, w).
#[global] Instance M_bind : MBind M := fun A B f m w =>
  match m w with
  | (Ret a, w') => f a w'
  | (Throw e, w') => (Throw e, w')
  end.

Definition throw {A} (e : exn) : M A := fun w => (Throw e, w).
Definition lift {A} (o : outcome A) : M A := fun w => (o, w).

(** [try { m } catch (e) { h e }] *)
Definition try_catch {A} (m : M A) (h : exn -> M A) : M A := fun w =>
  match m w with
  | (Ret a, w') => (Ret a, w')
  | (Throw e, w') => h e w'
  end.

Definition console_log (e : console_entry) : M unit := fun w =>
  (Ret tt, with_console (console w ++ [e]) w).

Definition setCell (c : cell) (v : value) : M unit := fun w =>
  (Ret tt, with_cells (<[c := v]> (cells w)) w).

(** [await fetch(...)] inside a sequential handler: the request is recorded
    and the network's answer to it is awaited. *)
Definition fetch (net : network) (req : request) : M response := fun w =>
  (net (length (requests w)) req, with_requests (requests w ++ [req]) w).

(** [fetch(...)] whose continuation runs in a later event. *)
Definition fetch_later (req : request) (p : pending) : M unit := fun w =>
  (Ret tt, with_inflight (inflight w ++ [p]) (with_requests (requests w ++ [req]) w)).

(** [setInterval(callback, period)] where [callback] polls [executionArn] *)
Definition setInterval (executionArn : value) (period : Z) : M Z := fun w =>
  let h := nextTimer w in
  (Ret h, with_nextTimer (h + 1)%Z
            (with_timers (<[h := mkTimer executionArn period]> (timers w)) w)).

(** [clearInterval(v)]: a no-op unless [v] is a live handle. *)
Definition clearInterval (v : value) : M unit := fun w =>
  match v with
  | VNum h => (Ret tt, with_timers (delete h (timers w)) w)
  | _ => (Ret tt, w)
  end.

Definition setStatus := setCell Status.
Definition setSelectedRecording := setCell SelectedRecording.
Definition setRecordings := setCell Recordings.
Definition setIsEditingBeforeSave := setCell IsEditingBeforeSave.
Definition setTitle := setCell Title.
Definition setTranscript := setCell Transcript.
Definition setSummary := setCell Summary.
Definition setKeywords := setCell Keywords.
Definition setRecordingDuration := setCell RecordingDuration.
Definition setUploadedAudioUrl := setCell UploadedAudioUrl.
Definition setAudioChunks := setCell AudioChunks.
Definition setCurrentChunkIndex := setCell CurrentChunkIndex.
Definition setShowAudioPlayer := setCell ShowAudioPlayer.
Definition setExecutionArn := setCell ExecutionArn.
Definition setProcessingStatus := setCell ProcessingStatus.
Definition setErrorMessage := setCell ErrorMessage.
Definition setIsRecording := setCell IsRecording.

(** [Object.is] on timer handles *)
Definition same_handle (a b : value) : bool :=
  match a, b with
  | VNull, VNull => true
  | VNum x, VNum y => (x =? y)%Z
  | _, _ => false
  end.

(** The clean-up of [useEffect(() => () => { if (pollingInterval)
    clearInterval(pollingInterval) }, [pollingInterval])], for the handle the
    effect closed over. *)
Definition polling_cleanup (pollingInterval : value) : M unit :=
  if truthy pollingInterval then clearInterval pollingInterval else mret tt.

(** [setPollingInterval(v)]: when the handle changes, the component renders
    again and the previous effect's clean-up runs. *)
Definition setPollingInterval (v : value) : M unit := fun w =>
  let old := cells w PollingInterval in
  if same_handle old v then (Ret tt, w)
  else (setCell PollingInterval v ;; polling_cleanup old) w.

(** Unmounting the component runs the last effect's clean-up. *)
Definition unmount : M unit := fun w =>
  polling_cleanup (cells w PollingInterval) w.

(** ** The page *)

Section Page.

Context `{Platform}.

Definition USER_ID : string := "demo-user-123".

Definition json_headers : list (string * string) :=
  [("Content-Type", "application/json")].

(** [`https://${AUDIO_BUCKET_NAME}.s3.amazonaws.com/${key}`], for the text
    of [key] *)
Definition chunk_url (key : string) : value :=
  VStr ("https://" +:+ AUDIO_BUCKET_NAME +:+ ".s3.amazonaws.com/" +:+ key).

(** [keys.map(key => `https://${AUDIO_BUCKET_NAME}.s3.amazonaws.com/${key}`)] *)
Fixpoint chunk_urls (keys : list value) : outcome (list value) :=
  match keys with
  | [] => Ret []
  | key :: rest =>
      match ToString key with
      | Throw e => Throw e
      | Ret s =>
          match chunk_urls rest with
          | Throw e => Throw e
          | Ret urls => Ret (chunk_url s :: urls)
          end
      end
  end.

(** *** fetchRecordings *)

Definition list_request : request :=
  mkRequest "GET" (KOENOTE_API_URL +:+ "/koenoto?user_id=" +:+ USER_ID) [] NoBody.

(** What the comparator throws on an entry, if it throws: it reads [a.date]
    and [a.start_time] and puts them into a template literal. *)
Definition null_entry_error : exn :=
  TypeError "Cannot read properties of null (reading 'date')".

Definition comparator_error (a : value) : option exn :=
  match a with
  | VNull => Some null_entry_error
  | VObj fields =>
      match ToString (lookup_field "date" fields) with
      | Throw e => Some e
      | Ret _ =>
          match ToString (lookup_field "start_time" fields) with
          | Throw e => Some e
          | Ret _ => None
          end
      end
  | _ => None
  end.

(** The entries the comparator is called on: [undefined] entries are never
    passed to it, and it is called on every other entry once there are two. *)
Definition compared (items : list value) : list value :=
  let defined := List.filter (fun a => match a with VUndef => false | _ => true end) items in
  if (2 <=? length defined)%nat then defined else [].

(** [data.sort((a, b) => ...)]: the sort ends with the error the comparator
    throws; when it throws different errors on different entries, the one of
    the entry the engine compares first. *)
Definition sort_recordings (data : value) : M value :=
  match data with
  | VArr items =>
      match omap comparator_error (compared items) with
      | [] => mret (VArr (sortByDateDesc items))
      | e :: es =>
          throw (if decide (Forall (eq e) es) then e else sort_first_error items)
      end
  | VNull => throw (TypeError "Cannot read properties of null (reading 'sort')")
  | VUndef => throw (TypeError "Cannot read properties of undefined (reading 'sort')")
  | _ => throw (TypeError "data.sort is not a function")
  end.

(** Up to [await fetch(...)]. *)
Definition fetchRecordings_begin : M unit :=
  setStatus (VStr "一覧取得中...");;
  fetch_later list_request PendingList.

(** From the settled [fetch] on. *)
Definition fetchRecordings_resume (r : outcome response) : M unit :=
  try_catch
    (res ← lift r;
     (if ok res then mret tt
      else throw (Error ("一覧取得に失敗しました (status: "
                           +:+ Number_toString (resp_status res) +:+ ")")));;
     data ← lift (resp_json res);
     sortedData ← sort_recordings data;
     setRecordings sortedData;;
     setStatus (VStr ""))
    (fun error => setStatus (VStr ("一覧取得に失敗: " +:+ message error))).

(** *** uploadChunks *)

Definition presign_request (filename contentType : string) : request :=
  mkRequest "POST" (KOENOTE_API_URL +:+ "/koenoto/presigned-url") json_headers
    (JsonBody (VObj [("filename", VStr filename); ("contentType", VStr contentType)])).

(** [fetch(presignedUrl, ...)], for the text of [presignedUrl] *)
Definition put_request (presignedUrl : string) (contentType : string) (chunk : Blob) : request :=
  mkRequest "PUT" presignedUrl [("Content-Type", contentType)] (BlobBody chunk).

Definition extension_of (chunk : Blob) : string :=
  if includes "webm" (blob_type chunk) then "webm" else "wav".
Definition contentType_of (chunk : Blob) : string :=
  if includes "webm" (blob_type chunk) then "audio/webm" else "audio/wav".

Definition msg_presign_response : string :=
  "プリサインドURLまたはキーが取得できませんでした".

(** Lines 315-325: the presigned URL and the key of a presign response. *)
Definition extractPresigned (presignedData : value) : M (value * value) :=
  presignedUrl ← lift (get presignedData "presignedUrl");
  key0 ← lift (get presignedData "key");
  audioUrl ← lift (get presignedData "audioUrl");
  key ← (if negb (truthy key0) && truthy audioUrl then
           match audioUrl with
           | VStr s => mret (pop (split_on "/"%char s))
           | _ => throw (TypeError "presignedData.audioUrl.split is not a function")
           end
         else mret key0);
  if negb (truthy presignedUrl) || negb (truthy key) then
    console_log (ErrInvalidPresigned presignedData);;
    throw (Error msg_presign_response)
  else mret (presignedUrl, key).

Definition msg_presign_request (status : Z) : string :=
  "プリサインドURLの取得に失敗しました: " +:+ Number_toString status.

Definition msg_chunk_upload (i : nat) (status : Z) : string :=
  "チャンク " +:+ pretty (S i) +:+ " のアップロードに失敗しました: "
    +:+ Number_toString status.

(** [`chunk_${Date.now()}_${i}.${extension}`], read when [c] requests have
    been issued. *)
Definition filename_of (c i : nat) (chunk : Blob) : string :=
  "chunk_" +:+ Number_toString (Date_now c) +:+ "_" +:+ pretty i +:+ "."
    +:+ extension_of chunk.

(** The body of the [for] loop for chunk [i] of [n]; returns the key pushed
    onto [uploadedUrls]. *)
Definition uploadChunk (net : network) (n i : nat) (chunk : Blob) : M value :=
  try_catch
    (setStatus (VStr ("チャンク " +:+ pretty (S i) +:+ "/" +:+ pretty n
                        +:+ " をアップロード中..."));;
     let contentType := contentType_of chunk in
     filename ← (fun w => (Ret (filename_of (length (requests w)) i chunk), w));
     console_log (LogUploading i contentType (blob_size chunk));;
     presignedUrlResponse ← fetch net (presign_request filename contentType);
     (if ok presignedUrlResponse then mret tt
      else throw (Error (msg_presign_request (resp_status presignedUrlResponse))));;
     presignedData ← lift (resp_json presignedUrlResponse);
     console_log (LogPresignedResponse presignedData);;
     '(presignedUrl, key) ← extractPresigned presignedData;
     _ ← lift (ToString key);   (* the log line is a template literal with [key] *)
     console_log (LogGotPresigned i key);;
     url ← lift (ToString presignedUrl);
     uploadResponse ← fetch net (put_request url contentType chunk);
     (if ok uploadResponse then mret tt
      else throw (Error (msg_chunk_upload i (resp_status uploadResponse))));;
     console_log (LogUploaded i key);;
     mret key)
    (fun error => console_log (ErrUploadingChunk i error);; throw error).

(** The loop from index [i] on, [uploadedUrls] holding the keys pushed so far. *)
Fixpoint uploadChunks_from (net : network) (n i : nat) (uploadedUrls : list value)
    (chunks : list Blob) : M (list value) :=
  match chunks with
  | [] => mret uploadedUrls
  | chunk :: rest =>
      key ← uploadChunk net n i chunk;
      uploadChunks_from net n (S i) (uploadedUrls ++ [key]) rest
  end.

Definition uploadChunks (net : network) (chunks : list Blob) : M (list value) :=
  uploadChunks_from net (length chunks) 0 [] chunks.

(** *** createChunks *)

(** [MAX_CHUNK_SIZE = 0.1 * 1024 * 1024] is 104857.6; an integer size is at
    most that exactly when ten times the size is at most [1024 * 1024]. *)
Definition TEN_MAX_CHUNK_SIZE : Z := 1024 * 1024.

(** [chunkCount] and [secondsPerChunk] are computed for the log line only. *)
Definition createChunks (audioBlob : Blob) : M (list Blob) :=
  if (10 * blob_size audioBlob <=? TEN_MAX_CHUNK_SIZE)%Z then
    console_log (LogNotSplitting (blob_size audioBlob));;
    mret [audioBlob]
  else
    console_log (LogCreatingChunks (blob_size audioBlob));;
    console_log (LogSplitting (blob_size audioBlob));;
    mret [audioBlob].

(** *** startPolling and its interval callback *)

(** The status request, for the text of [executionArn] *)
Definition status_request (executionArn : string) : request :=
  mkRequest "GET"
    (KOENOTE_API_URL +:+ "/koenoto/process-status?executionArn=" +:+ executionArn)
    [] NoBody.

(** [v.map(key => `https://...`)]: only arrays have [map]. *)
Definition map_chunk_urls (v : value) : M value :=
  match v with
  | VArr items => chunkUrls ← lift (chunk_urls items); mret (VArr chunkUrls)
  | _ => throw (TypeError "resultData.audioChunks.map is not a function")
  end.

(** Lines 738-746: unwrap a string-encoded [result] inside the result. *)
Definition decode_nested (resultData : value) : M value :=
  if truthy resultData then
    inner ← lift (get resultData "result");
    match inner with
    | VStr s =>
        match JSON_parse s with
        | Ret decoded => console_log (LogParsedResult decoded);; mret decoded
        | Throw e => console_log (ErrResultParse e);; mret resultData
        end
    | _ => mret resultData
    end
  else mret resultData.

(** Lines 748-772: publish the result and refresh the list. *)
Definition publish_result (resultData : value) : M unit :=
  title ← lift (get resultData "title");
  setTitle (js_or title (VStr "無題"));;
  transcript ← lift (get resultData "transcript");
  setTranscript (js_or transcript (VStr ""));;
  summary ← lift (get resultData "summary");
  setSummary (js_or summary (VStr ""));;
  keywords ← lift (get resultData "keywords");
  setKeywords (js_or keywords (VArr []));;
  audioUrl ← lift (get resultData "audioUrl");
  (if truthy audioUrl then
     setUploadedAudioUrl audioUrl;;
     setShowAudioPlayer (VBool true)
   else
     audioChunks ← lift (get resultData "audioChunks");
     hasChunks ← lift (nonempty audioChunks);
     if (hasChunks : bool) then
       chunkUrls ← map_chunk_urls audioChunks;
       setAudioChunks chunkUrls;;
       setCurrentChunkIndex (VNum 0);;
       setShowAudioPlayer (VBool true)
     else mret tt);;
  setStatus (VStr "処理完了");;
  setProcessingStatus VNull;;
  setIsEditingBeforeSave (VBool true);;
  fetchRecordings_begin.

Definition msg_status_fetch_failed : string := "ステータスの取得に失敗しました".

(** The callback of the interval [interval], from the settled [fetch] on. *)
Definition tick_resume (interval : Z) (r : outcome response) : M unit :=
  try_catch
    (response ← lift r;
     data ← lift (resp_json response);
     console_log (LogPollStatus data);;
     status ← lift (get data "status");
     if strict_eq_str status "completed" then
       clearInterval (VNum interval);;
       setPollingInterval VNull;;
       setExecutionArn VNull;;
       resultData ← lift (get data "result");
       resultData ← decode_nested resultData;
       publish_result resultData
     else if strict_eq_str status "failed" then
       clearInterval (VNum interval);;
       setPollingInterval VNull;;
       setExecutionArn VNull;;
       error ← lift (get data "error");
       errorText ← lift (ToString (js_or error (VStr "不明なエラー")));
       setStatus (VStr ("処理に失敗しました: " +:+ errorText));;
       setProcessingStatus VNull
     else
       progressMessage ← lift (get data "message");
       setProcessingStatus (js_or progressMessage (VStr "処理中..."));;
       percentComplete ← lift (get data "percentComplete");
       if truthy percentComplete then
         percentText ← lift (ToString percentComplete);
         setProcessingStatus (VStr ("処理中... (" +:+ percentText +:+ "%)"))
       else mret tt)
    (fun error =>
       console_log (ErrStatusFetch error);;
       setStatus (VStr msg_status_fetch_failed);;
       setProcessingStatus VNull).

(** The interval fires: the callback runs up to [await fetch(...)].  A cleared
    interval does not fire.  The URL is built inside the [try]: when the
    execution id has no text the callback goes on in its [catch] at once. *)
Definition tick_fire (interval : Z) : M unit := fun w =>
  match timers w !! interval with
  | Some tm =>
      match ToString (timer_arn tm) with
      | Ret executionArn =>
          fetch_later (status_request executionArn)
            (PendingTick interval (timer_arn tm)) w
      | Throw e => tick_resume interval (Throw e) w
      end
  | None => (Ret tt, w)
  end.

Definition POLL_PERIOD : Z := 3000.

Definition startPolling (executionArn : value) : M value :=
  interval ← setInterval executionArn POLL_PERIOD;
  setPollingInterval (VNum interval);;
  mret (VNum interval).

(** *** processAudio *)

Definition process_request (chunkKeys : list value) : request :=
  mkRequest "POST" (KOENOTE_API_URL +:+ "/koenoto/process-audio") json_headers
    (JsonBody (VObj [("audioKeys", VArr chunkKeys);
                     ("completeAudioUrl", VNull);
                     ("userId", VStr USER_ID)])).

Definition msg_unexpected_shape : string := "予期しないレスポンス形式です".

(** The text of the error for a non-success status, for the text of
    [errorData.error || 'Unknown error'] *)
Definition msg_http_error (status : Z) (serverError : string) : string :=
  "HTTP error! status: " +:+ Number_toString status +:+ ", message: " +:+ serverError.

(** Lines 422-463: what the answer of the start-processing endpoint leads to. *)
Definition dispatch_response (response : response) : M value :=
  (if ok response then mret tt
   else
     errorData ← lift (resp_json response);
     console_log (ErrApi errorData);;
     serverError ← lift (get errorData "error");
     errorText ← lift (ToString (js_or serverError (VStr "Unknown error")));
     throw (Error (msg_http_error (resp_status response) errorText)));;
  result ← lift (resp_json response);
  console_log (LogProcessResponse result);;
  executionArn ← lift (get result "executionArn");
  if truthy executionArn then
    setExecutionArn executionArn;;
    startPolling executionArn;;
    setStatus (VStr "");;
    setProcessingStatus (VStr "音声処理中...");;
    mret VNull
  else
    title ← lift (get result "title");
    if truthy title then
      setTitle (js_or title (VStr "無題"));;
      transcript ← lift (get result "transcript");
      setTranscript (js_or transcript (VStr ""));;
      summary ← lift (get result "summary");
      setSummary (js_or summary (VStr ""));;
      keywords ← lift (get result "keywords");
      setKeywords (js_or keywords (VArr []));;
      setStatus (VStr "処理完了");;
      setProcessingStatus VNull;;
      audioUrl ← lift (get result "audioUrl");
      (if truthy audioUrl then
         setUploadedAudioUrl audioUrl;;
         setShowAudioPlayer (VBool true)
       else mret tt);;
      setIsEditingBeforeSave (VBool true);;
      fetchRecordings_begin;;
      mret result
    else throw (Error msg_unexpected_shape).

Definition processAudio (net : network) (audioBlob : Blob) : M value :=
  try_catch
    (setStatus (VStr "音声処理中...");;
     console_log (LogProcessingAudio (blob_type audioBlob) (blob_size audioBlob));;
     chunks ← createChunks audioBlob;
     console_log (LogCreatedChunks (length chunks));;
     chunkKeys ← uploadChunks net chunks;
     console_log (LogUploadedChunks chunkKeys);;
     (if Nat.eqb (length chunkKeys) 0
      then throw (Error "音声ファイルのアップロードに失敗しました")
      else mret tt);;
     chunkUrls ← lift (chunk_urls chunkKeys);
     setAudioChunks (VArr chunkUrls);;
     setCurrentChunkIndex (VNum 0);;
     setShowAudioPlayer (VBool true);;
     setStatus (VStr "音声処理開始中...");;
     setProcessingStatus (VStr "処理を開始しています...");;
     response ← fetch net (process_request chunkKeys);
     dispatch_response response)
    (fun error =>
       console_log (ErrProcessing error);;
       setStatus (VStr ("音声処理に失敗しました: " +:+ message error));;
       setProcessingStatus VNull;;
       throw error).

(** *** Recording sessions *)

Definition resetState : M unit :=
  setSelectedRecording VNull;;
  setTitle (VStr "");;
  setTranscript (VStr "");;
  setSummary (VStr "");;
  setKeywords (VArr []);;
  setShowAudioPlayer (VBool false);;
  setIsEditingBeforeSave (VBool false);;
  setAudioChunks (VArr []);;
  setCurrentChunkIndex (VNum 0);;
  setUploadedAudioUrl (VStr "");;
  setRecordingDuration (VStr "0:00");;
  setErrorMessage VNull;;
  setProcessingStatus VNull;;
  setExecutionArn VNull.

(** [startRecording], with the recorder itself left out: [granted] says
    whether [getUserMedia] gives the microphone.  Once it does, creating and
    starting the recorder are taken to succeed; a failure there, which would
    come after [isRecording] has been set, is not modelled. *)
Definition startRecording (granted : bool) : M unit :=
  try_catch
    (resetState;;
     (if granted then mret tt
      else throw (Error "getUserMedia"));;
     setShowAudioPlayer (VBool false);;
     setIsRecording (VBool true);;
     setStatus (VStr "録音中..."))
    (fun error =>
       console_log ErrStartRecording;;
       setStatus (VStr "録音の開始に失敗しました")).

(** ** Events *)

Inductive event : Type :=
  | StartRecording (granted : bool)          (* the record button, when idle *)
  | RecorderStopped (net : network) (blob : Blob)   (* [recorder.onstop] *)
  | TimerFires (interval : Z)
  | Delivered (i : nat) (r : outcome response)   (* the [i]-th open request settles *)
  | ListRequested                            (* [fetchRecordings()] from an effect *)
  | Unmount.

Definition exec {A} (m : M A) (w : world) : world := snd (m w).

Definition step (ev : event) (w : world) : world :=
  match ev with
  | StartRecording granted => exec (startRecording granted) w
  | RecorderStopped net blob => exec (processAudio net blob) w
  | TimerFires interval => exec (tick_fire interval) w
  | Delivered i r =>
      match inflight w !! i with
      | Some p =>
          let w' := with_inflight (delete i (inflight w)) w in
          match p with
          | PendingTick interval _ => exec (tick_resume interval r) w'
          | PendingList => exec (fetchRecordings_resume r) w'
          end
      | None => w
      end
  | ListRequested => exec fetchRecordings_begin w
  | Unmount => exec unmount w
  end.

Definition run (evs : list event) (w : world) : world :=
  foldl (fun w ev => step ev w) w evs.

(** ** Vocabulary of the properties *)

(** The two awaits of a request, [fetch] and [response.json()], either of
    which can reject. *)
Definition request_error (r : outcome response) : option exn :=
  match r with
  | Throw e => Some e
  | Ret res => match resp_json res with Throw e => Some e | Ret _ => None end
  end.

(** One round of polling: the interval fires and its request settles with [r]
    before anything else happens. *)
Definition poll_round (interval : Z) (w : world) (r : outcome response) : world :=
  step (Delivered (length (inflight w)) r) (step (TimerFires interval) w).

Definition poll_rounds (interval : Z) (rs : list (outcome response)) (w : world) : world :=
  foldl (poll_round interval) w rs.

(** [seg] is what follows the last ['/'] of [s] (all of [s] when it has none). *)
Definition trailing_segment (s seg : string) : Prop :=
  includes "/" seg = false /\ (s = seg \/ exists pre, s = pre +:+ "/" +:+ seg).


(** The two requests of chunk [i], the first of them being request number [c]. *)
Definition chunk_requests (c i : nat) (presignedUrl : string) (chunk : Blob) : list request :=
  [presign_request (filename_of c i chunk) (contentType_of chunk);
   put_request presignedUrl (contentType_of chunk) chunk].

(** The network lets chunk [i] through when its presign request is request
    number [c]: the presign request succeeds with a presigned URL whose text is
    [presignedUrl] and with a [key] that has a text, and the PUT to
    [presignedUrl] succeeds. *)
Definition chunk_goes_through (net : network) (c i : nat) (chunk : Blob)
    (presignedUrl : string) (key : value) : Prop :=
  exists res presignedData url res',
    net c (presign_request (filename_of c i chunk) (contentType_of chunk)) = Ret res
    /\ ok res = true
    /\ resp_json res = Ret presignedData
    /\ (forall w, fst (extractPresigned presignedData w) = Ret (url, key))
    /\ is_Some (printed key)
    /\ ToString url = Ret presignedUrl
    /\ net (S c) (put_request presignedUrl (contentType_of chunk) chunk) = Ret res'
    /\ ok res' = true.

(** [StatusIndicator]: the value the status pill displays,
    [processingStatus || status]; nothing is rendered when both are falsy, and
    rendering calls [displayStatus.includes], which only strings and arrays
    have. *)
Definition StatusIndicator (w : world) : outcome (option value) :=
  let status := cells w Status in
  let processingStatus := cells w ProcessingStatus in
  if negb (truthy status) && negb (truthy processingStatus) then Ret None
  else
    let displayStatus := js_or processingStatus status in
    match displayStatus with
    | VStr _ | VArr _ => Ret (Some displayStatus)
    | _ => Throw (TypeError "displayStatus.includes is not a function")
    end.

(** *** The polling invariant *)

(** The polling handle is [null] or a handle that has been handed out, and a
    live interval is the one the handle names: at most one interval is live. *)
Definition single_timer (w : world) : Prop :=
  (0 < nextTimer w)%Z
  /\ (cells w PollingInterval = VNull
      \/ exists h, cells w PollingInterval = VNum h /\ (0 < h < nextTimer w)%Z)
  /\ (forall h tm, timers w !! h = Some tm -> cells w PollingInterval = VNum h).

(** [w'] comes after [w]: the invariant is kept, handles are not reused and a
    cleared interval stays cleared. *)
Definition evolves (w w' : world) : Prop :=
  (single_timer w -> single_timer w')
  /\ (nextTimer w <= nextTimer w')%Z
  /\ (forall h, (h < nextTimer w)%Z -> timers w !! h = None -> timers w' !! h = None).

Definition respects {A} (m : M A) : Prop := forall w, evolves w (snd (m w)).

End Page.

(** ** Text of the keyword field

    Strings are UTF-8 byte strings; the functions below work on the bytes. *)

(** [s.split(/[,\n]/)]: never empty. *)
Definition is_keyword_separator (a : ascii) : bool :=
  Ascii.eqb a "," || Ascii.eqb a "010".

Fixpoint split_where (sep : ascii -> bool) (l : list ascii) : list (list ascii) :=
  match l with
  | [] => [[]]
  | a :: r =>
      let segs := split_where sep r in
      if sep a then [] :: segs
      else match segs with
           | h :: t => (a :: h) :: t
           | [] => [[a]]
           end
  end.

(** The characters [trim] removes (WhiteSpace and LineTerminator), by the
    length of their UTF-8 encoding: U+0009..U+000D and U+0020; U+00A0; U+1680,
    U+2000..U+200A, U+2028, U+2029, U+202F, U+205F, U+3000 and U+FEFF. *)
Definition ws1 (a : ascii) : bool :=
  let c := N_of_ascii a in
  ((9 <=? c) && (c <=? 13) || (c =? 32))%N.

Definition ws2 (a b : ascii) : bool :=
  ((N_of_ascii a =? 194) && (N_of_ascii b =? 160))%N.

Definition ws3 (a b d : ascii) : bool :=
  let x := N_of_ascii a in
  let y := N_of_ascii b in
  let z := N_of_ascii d in
  ((x =? 225) && (y =? 154) && (z =? 128)
   || (x =? 226) && (y =? 128)
      && ((128 <=? z) && (z <=? 138) || (z =? 168) || (z =? 169) || (z =? 175))
   || (x =? 226) && (y =? 129) && (z =? 159)
   || (x =? 227) && (y =? 128) && (z =? 128)
   || (x =? 239) && (y =? 187) && (z =? 191))%N.

(** Drop the whitespace characters at the front; [w2] and [w3] test a two- and
    a three-byte character. *)
Fixpoint trim_front (w2 : ascii -> ascii -> bool) (w3 : ascii -> ascii -> ascii -> bool)
    (l : list ascii) : list ascii :=
  match l with
  | [] => []
  | a :: r =>
      if ws1 a then trim_front w2 w3 r
      else match r with
           | [] => l
           | b :: r2 =>
               if w2 a b then trim_front w2 w3 r2
               else match r2 with
                    | [] => l
                    | d :: r3 => if w3 a b d then trim_front w2 w3 r3 else l
                    end
           end
  end.

Definition trimStart (l : list ascii) : list ascii := trim_front ws2 ws3 l.

(** From the end the bytes of a character come in reverse order. *)
Definition trimEnd (l : list ascii) : list ascii :=
  rev (trim_front (fun a b => ws2 b a) (fun a b d => ws3 d b a) (rev l)).

(** [s.trim()] *)
Definition trim (s : string) : string :=
  String.string_of_list_ascii (trimEnd (trimStart (String.list_ascii_of_string s))).

(** [val.split(/[,\n]/).map(w => w.trim()).filter(Boolean)] *)
Definition parse_keywords (val : string) : list string :=
  filter (fun w => w <> "")
    (trim <$> (String.string_of_list_ascii
                 <$> split_where is_keyword_separator (String.list_ascii_of_string val))).

Definition handleKeywordsChange (val : string) : M unit :=
  setKeywords (VArr (VStr <$> parse_keywords val)).

(** The text of the keyword field, [keywords.join(", ")]; rendering throws
    when the cell does not hold an array. *)
Definition keywords_text `{Platform} (w : world) : outcome string :=
  match cells w Keywords with
  | VArr items => join_with ", " items
  | VUndef => Throw (TypeError "Cannot read properties of undefined (reading 'join')")
  | VNull => Throw (TypeError "Cannot read properties of null (reading 'join')")
  | _ => Throw (TypeError "keywords.join is not a function")
  end.

(** A keyword as the field stores it: not empty, free of separators, and
    without whitespace at either end. *)
Definition clean_keyword (k : string) : Prop :=
  k <> ""
  /\ Forall (fun a => is_keyword_separator a = false) (String.list_ascii_of_string k)
  /\ trim k = k.

(** ** The rest of the page's state *)

(** The cells that only the handlers below write. *)
Inductive view_cell : Type :=
  | IsLoading | Copied | IsSidebarOpen | RecordingStartTime.

#[global] Instance view_cell_eq_dec : EqDecision view_cell.
Proof. solve_decision. Defined.

(** The console call sites of the handlers below. *)
Inductive page_entry : Type :=
  | LogFetchedRecording (data : value)
  | LogGeneratedChunkUrls (chunkUrls : value)
  | LogSavedRecording (savedData : value)
  | ErrSavingRecording (error : exn).

(** The whole page: the pipeline's world, the remaining cells, and what the
    handlers below wrote to the console, each entry with the number of entries
    the pipeline's console held when it was written (which fixes its place
    among them). *)
Record page : Type := mkPage {
  pipeline : world;
  view : view_cell -> value;
  page_console : list (nat * page_entry)
}.

Definition initial_view (c : view_cell) : value :=
  match c with
  | IsLoading | Copied | IsSidebarOpen => VBool false
  | RecordingStartTime => VNull
  end.

Definition initial_page : page := mkPage initial_world initial_view [].

Definition P (A : Type) : Type := page -> outcome A * page.

#[global] Instance P_ret : MRet P := fun A a p => (Ret a, p).
#[global] Instance P_bind : MBind P := fun A B f m p =>
  match m p with
  | (Ret a, p') => f a p'
  | (Throw e, p') => (Throw e, p')
  end.

(** Run a handler of the pipeline inside the page. *)
Definition inner {A} (m : M A) : P A := fun p =>
  match m (pipeline p) with
  | (o, w') => (o, mkPage w' (view p) (page_console p))
  end.

Definition ptry_catch {A} (m : P A) (h : exn -> P A) : P A := fun p =>
  match m p with
  | (Ret a, p') => (Ret a, p')
  | (Throw e, p') => h e p'
  end.

(** [try { m } finally { f }] *)
Definition ptry_finally {A} (m : P A) (f : P unit) : P A := fun p =>
  match m p with
  | (o, p') =>
      match f p' with
      | (Ret _, p'') => (o, p'')
      | (Throw e, p'') => (Throw e, p'')
      end
  end.

Definition page_log (e : page_entry) : P unit := fun p =>
  (Ret tt, mkPage (pipeline p) (view p)
             (page_console p ++ [(length (console (pipeline p)), e)])).

Definition setView (c : view_cell) (v : value) : P unit := fun p =>
  (Ret tt, mkPage (pipeline p) (<[c := v]> (view p)) (page_console p)).

Definition setIsLoading := setView IsLoading.
Definition setCopied := setView Copied.
Definition setIsSidebarOpen := setView IsSidebarOpen.
Definition setRecordingStartTime := setView RecordingStartTime.

Definition pexec {A} (m : P A) (p : page) : page := snd (m p).

(** What [saveRecording] takes from the browser, each as a function of how
    many requests have been issued. *)
Class SaveEnv : Type := {
  (** [uuid()] *)
  uuid : nat -> string;
  (** [new Date().toISOString()] for the [date] field *)
  date_toISOString : nat -> string;
  (** [new Date().toTimeString()] for the [start_time] field *)
  start_toTimeString : nat -> string;
  (** [new Date().toISOString()] for the [timestamp] field *)
  timestamp_toISOString : nat -> string
}.

Section PageRest.

Context `{Platform} `{SaveEnv}.

(** *** fetchRecording and handleSelectRecording *)

(** The detail request, for the text of [id] *)
Definition recording_request (id : string) : request :=
  mkRequest "GET" (KOENOTE_API_URL +:+ "/koenoto/" +:+ id) [] NoBody.

(** [data.audioChunks.map(key => `https://...`)] *)
Definition map_detail_chunk_urls (v : value) : M value :=
  match v with
  | VArr items => chunkUrls ← lift (chunk_urls items); mret (VArr chunkUrls)
  | _ => throw (TypeError "data.audioChunks.map is not a function")
  end.

Definition fetchRecording (net : network) (id : value) : P unit :=
  ptry_catch
    (inner (setStatus (VStr "録音データを取得中..."));;
     idText ← inner (lift (ToString id));
     response ← inner (fetch net (recording_request idText));
     (if ok response then mret tt
      else inner (throw (Error ("HTTP error! status: "
                                  +:+ Number_toString (resp_status response)))));;
     data ← inner (lift (resp_json response));
     page_log (LogFetchedRecording data);;
     inner (setSelectedRecording data);;
     audioChunks ← inner (lift (get data "audioChunks"));
     hasChunks ← inner (lift (nonempty audioChunks));
     (if (hasChunks : bool) then
        chunkUrls ← inner (map_detail_chunk_urls audioChunks);
        page_log (LogGeneratedChunkUrls chunkUrls);;
        inner (setAudioChunks chunkUrls);;
        inner (setCurrentChunkIndex (VNum 0));;
        inner (setShowAudioPlayer (VBool true))
      else
        audioUrl ← inner (lift (get data "audioUrl"));
        if truthy audioUrl then
          inner (setUploadedAudioUrl audioUrl);;
          inner (setShowAudioPlayer (VBool true))
        else inner (setShowAudioPlayer (VBool false)));;
     transcript ← inner (lift (get data "transcript"));
     inner (setTranscript (js_or transcript (VStr "")));;
     summary ← inner (lift (get data "summary"));
     inner (setSummary (js_or summary (VStr "")));;
     keywords ← inner (lift (get data "keywords"));
     inner (setKeywords (js_or keywords (VArr [])));;
     title ← inner (lift (get data "title"));
     inner (setTitle (js_or title (VStr "")));;
     inner (setStatus (VStr "")))
    (fun error =>
       inner (setStatus (VStr ("録音データの取得に失敗しました: " +:+ message error)))).

Definition handleSelectRecording (net : network) (recording : value) : P unit :=
  inner (setSelectedRecording recording);;
  inner (setTranscript (VStr ""));;
  inner (setSummary (VStr ""));;
  inner (setKeywords (VArr []));;
  setCopied (VBool false);;
  inner (setIsEditingBeforeSave (VBool false));;
  inner (setTitle (VStr ""));;
  inner (setUploadedAudioUrl (VStr ""));;
  inner (setStatus (VStr "読み込み中..."));;
  setIsSidebarOpen (VBool false);;
  inner (setShowAudioPlayer (VBool false));;
  ptry_catch
    (id ← inner (lift (get recording "id"));
     fetchRecording net id)
    (fun error => inner (setStatus (VStr ("詳細取得失敗: " +:+ message error)))).

(** *** handleDelete *)

(** The DELETE request, for the text of [id] *)
Definition delete_request (id : string) : request :=
  mkRequest "DELETE" (KOENOTE_API_URL +:+ "/koenoto/" +:+ id) [] NoBody.

Definition handleDelete (net : network) : M unit := fun w =>
  let selectedRecording := cells w SelectedRecording in
  if negb (truthy selectedRecording) then (Ret tt, w)
  else
    try_catch
      (setStatus (VStr "削除中...");;
       id ← lift (get selectedRecording "id");
       idText ← lift (ToString id);
       response ← fetch net (delete_request idText);
       (if ok response then mret tt
        else throw (Error ("削除に失敗しました (status: "
                             +:+ Number_toString (resp_status response) +:+ ")")));;
       resetState;;
       fetchRecordings_begin;;
       setStatus (VStr "削除しました"))
      (fun error => setStatus (VStr ("削除に失敗: " +:+ message error)))
      w.

(** *** handleAudioEnded

    [inDocument] says whether the audio element is still in the document.
    The two cells read here are only ever written with an array and a number
    (the chunk invariant, proved below); other contents are left alone. *)
Definition handleAudioEnded (inDocument : bool) : M unit := fun w =>
  match cells w CurrentChunkIndex, cells w AudioChunks with
  | VNum currentChunkIndex, VArr audioChunks =>
      if (currentChunkIndex <? Z.of_nat (length audioChunks) - 1)%Z then
        if inDocument then setCurrentChunkIndex (VNum (currentChunkIndex + 1)) w
        else (Ret tt, w)
      else setCurrentChunkIndex (VNum 0) w
  | _, _ => (Ret tt, w)
  end.

(** *** saveRecording *)

(** [s.split(sep)[0]] *)
Definition first_segment (sep : ascii) (s : string) : string :=
  match split_on sep s with
  | h :: _ => h
  | [] => ""
  end.

Definition save_request (recordingData : value) : request :=
  mkRequest "POST" (KOENOTE_API_URL +:+ "/koenoto/save-recording") json_headers
    (JsonBody (VObj [("recording", recordingData)])).

(** The object literal [recordingData].  [currentProcessingSessionId] has no
    setter and stays [null], so the id is [uuid()]; [value] has no [Date], so
    a truthy [recordingStartTime] has no [toTimeString]. *)
Definition build_recordingData : P value := fun p =>
  let w := pipeline p in
  let n := length (requests w) in
  let recordingStartTime := view p RecordingStartTime in
  let recordingDuration := cells w RecordingDuration in
  let audioChunks := cells w AudioChunks in
  if truthy recordingStartTime then
    (Throw (TypeError "recordingStartTime.toTimeString is not a function"), p)
  else
    match audioChunks with
    | VUndef =>
        (Throw (TypeError "Cannot read properties of undefined (reading 'length')"), p)
    | VNull =>
        (Throw (TypeError "Cannot read properties of null (reading 'length')"), p)
    | _ =>
        match length_gt0 audioChunks with
        | Throw e => (Throw e, p)
        | Ret hasChunks =>
            (Ret (VObj
               [("id", VStr (uuid n));
                ("title", js_or (cells w Title) (VStr "無題"));
                ("date", VStr (first_segment "T" (date_toISOString n)));
                ("start_time", VStr (first_segment " " (start_toTimeString n)));
                ("duration",
                   if truthy recordingDuration
                      && negb (strict_eq_str recordingDuration "N/A")
                   then recordingDuration else VStr "00:00:00");
                ("transcript", js_or (cells w Transcript) (VStr ""));
                ("summary", js_or (cells w Summary) (VStr ""));
                ("keywords", js_or (cells w Keywords) (VArr []));
                ("user_id", VStr USER_ID);
                ("audioUrl", cells w UploadedAudioUrl);
                ("audioChunksUrls", if hasChunks then audioChunks else VUndef);
                ("timestamp", VStr (timestamp_toISOString n))]), p)
        end
    end.

Definition saveRecording (net : network) : P unit :=
  ptry_finally
    (ptry_catch
       (setIsLoading (VBool true);;
        inner (setStatus (VStr "サーバーに保存中..."));;
        recordingData ← build_recordingData;
        response ← inner (fetch net (save_request recordingData));
        (if ok response then mret tt
         else inner (throw (Error "Failed to save recording")));;
        savedData ← inner (lift (resp_json response));
        page_log (LogSavedRecording savedData);;
        inner (setIsEditingBeforeSave (VBool false));;
        inner (setSelectedRecording recordingData);;
        inner (setShowAudioPlayer (VBool true));;
        inner fetchRecordings_begin;;
        inner (setStatus (VStr "保存しました")))
       (fun error =>
          page_log (ErrSavingRecording error);;
          inner (setStatus (VStr ("保存に失敗しました: " +:+ message error)));;
          inner (setErrorMessage (VStr "録音の保存中にエラーが発生しました。"))))
    (setIsLoading (VBool false)).

(** The cancel button of the edit form (lines 1202-1211). *)
Definition cancelEdit : P unit :=
  inner (setTitle (VStr ""));;
  inner (setTranscript (VStr ""));;
  inner (setSummary (VStr ""));;
  inner (setKeywords (VArr []));;
  inner (setIsEditingBeforeSave (VBool false));;
  setRecordingStartTime VNull;;
  inner (setRecordingDuration (VStr "0:00"));;
  inner (setUploadedAudioUrl (VStr "")).

(** *** What the audio player renders *)

Inductive player_view : Type :=
  | NotRendered                 (* [return null] *)
  | NoAudioData                 (* the "no audio data" notice *)
  | AudioElement (src : value). (* [<audio src=...>] *)

(** [selectedRecording?.audioUrl] *)
Definition selected_audioUrl (w : world) : value :=
  match cells w SelectedRecording with
  | VObj fields => lookup_field "audioUrl" fields
  | _ => VUndef
  end.

(** The component [AudioPlayer]; the chunk cells hold an array and a number
    (the chunk invariant, proved below), and nothing is rendered for other
    contents. *)
Definition AudioPlayer (w : world) : player_view :=
  if negb (truthy (cells w ShowAudioPlayer)) then NotRendered
  else
    match cells w AudioChunks, cells w CurrentChunkIndex with
    | VArr audioChunks, VNum currentChunkIndex =>
        let fallback := js_or (cells w UploadedAudioUrl) (selected_audioUrl w) in
        match audioChunks with
        | [] => if truthy fallback then AudioElement fallback else NoAudioData
        | _ :: _ =>
            AudioElement
              (if (currentChunkIndex <? 0)%Z then VUndef
               else default VUndef (audioChunks !! Z.to_nat currentChunkIndex))
        end
    | _, _ => NotRendered
    end.

(** ** Actions of the user and of the environment on the whole page *)

Inductive action : Type :=
  | Pipeline (ev : event)
  | SelectRecording (net : network) (recording : value)
  | DeleteClicked (net : network)
  | SaveClicked (net : network)
  | CancelClicked
  | TitleEdited (val : string)
  | TranscriptEdited (val : string)
  | SummaryEdited (val : string)
  | KeywordsEdited (val : string)
  | AudioEnded (inDocument : bool).

Definition perform (a : action) (p : page) : page :=
  match a with
  | Pipeline ev => pexec (inner (fun w => (Ret tt, step ev w))) p
  | SelectRecording net recording => pexec (handleSelectRecording net recording) p
  | DeleteClicked net => pexec (inner (handleDelete net)) p
  | SaveClicked net => pexec (saveRecording net) p
  | CancelClicked => pexec cancelEdit p
  | TitleEdited val => pexec (inner (setTitle (VStr val))) p
  | TranscriptEdited val => pexec (inner (setTranscript (VStr val))) p
  | SummaryEdited val => pexec (inner (setSummary (VStr val))) p
  | KeywordsEdited val => pexec (inner (handleKeywordsChange val)) p
  | AudioEnded inDocument => pexec (inner (handleAudioEnded inDocument)) p
  end.

Definition play (acts : list action) (p : page) : page :=
  foldl (fun p a => perform a p) p acts.

(** The chunk list is an array of chunk URLs and the current index points into
    it (or is 0 when the list is empty). *)
Definition chunks_ok (w : world) : Prop :=
  exists items i,
    cells w AudioChunks = VArr items
    /\ Forall (fun v => exists key : string, v = chunk_url key) items
    /\ cells w CurrentChunkIndex = VNum i
    /\ (0 <= i)%Z
    /\ ((i < Z.of_nat (length items))%Z \/ i = 0%Z).

Definition keeps_chunks (w w' : world) : Prop := chunks_ok w -> chunks_ok w'.

End PageRest.

(** A handler follows the relation [R] when the world it leaves is related to
    the world it found. *)
Definition follows (R : world -> world -> Prop) {A} (m : M A) : Prop :=
  forall w, R w (snd (m w)).

Definition pfollows (R : page -> page -> Prop) {A} (m : P A) : Prop :=
  forall p, R p (snd (m p)).

(** A relation on worlds, read on the pipeline of a page. *)
Definition on_pipeline (R : world -> world -> Prop) (p p' : page) : Prop :=
  R (pipeline p) (pipeline p').

(** No recording start time is stored after, if none was stored before. *)
Definition keeps_start_unset (p p' : page) : Prop :=
  view p RecordingStartTime = VNull -> view p' RecordingStartTime = VNull.

(** The poll is as it was: the same live intervals, the same next handle and
    the same stored handle. *)
Definition same_poll (w w' : world) : Prop :=
  timers w' = timers w
  /\ nextTimer w' = nextTimer w
  /\ cells w' PollingInterval = cells w PollingInterval.

(** A handler that leaves the poll as it was whenever it throws. *)
Definition throws_quietly {A} (m : M A) : Prop :=
  forall w e, fst (m w) = Throw e -> same_poll w (snd (m w)).

(** [l] starts with a whitespace character. *)
Definition lead_ws (w2 : ascii -> ascii -> bool) (w3 : ascii -> ascii -> ascii -> bool)
    (l : list ascii) : bool :=
  match l with
  | [] => false
  | a :: r =>
      ws1 a
      || match r with
         | [] => false
         | b :: r2 =>
             w2 a b
             || match r2 with
                | [] => false
                | d :: _ => w3 a b d
                end
         end
  end.

(** ** Sample data

    A concrete platform, network and inputs on which the properties are
    exercised. *)

Definition dq : string := String (ascii_of_nat 34) EmptyString.

(** The JSON text of an object with a title and a transcript, and what it
    decodes to; [dq] is the double quote. *)
Definition sample_payload_text : string :=
  "{" +:+ dq +:+ "title" +:+ dq +:+ ":" +:+ dq +:+ "Inner" +:+ dq +:+ ","
      +:+ dq +:+ "transcript" +:+ dq +:+ ":" +:+ dq +:+ "inner text" +:+ dq +:+ "}".

Definition sample_payload : list (string * value) :=
  [("title", VStr "Inner"); ("transcript", VStr "inner text")].

(** A [JSON.parse] that knows two texts and rejects the rest. *)
Definition sample_parse (s : string) : outcome value :=
  if String.eqb s sample_payload_text then Ret (VObj sample_payload)
  else if String.eqb s "{}" then Ret (VObj [])
  else Throw (SyntaxError "Unexpected token in JSON").

Definition sample_platform : Platform := {|
  KOENOTE_API_URL := "https://api.koenote.test";
  AUDIO_BUCKET_NAME := "koenote-audio";
  JSON_parse := sample_parse;
  Date_now := fun n => (1700000000000 + Z.of_nat n)%Z;
  StringToNumber_gt0 := fun _ => false;
  Number_toString_unsafe := fun _ => "1e+21";
  sortByDateDesc := fun items => items;
  sort_first_error := fun _ => TypeError msg_not_primitive
|}.

Definition sample_blob : Blob := mkBlob "audio/webm" [Byte.x01; Byte.x02; Byte.x03].

Definition json_response (status : Z) (v : value) : response :=
  mkResponse status (Ret v).
Definition empty_response (status : Z) : response :=
  mkResponse status (Throw (SyntaxError "Unexpected end of JSON input")).

(** The presign endpoint answers with a URL and a key made from the requested
    file name. *)
Definition sample_presign (req : request) : response :=
  match req_body req with
  | JsonBody (VObj (("filename", VStr f) :: _)) =>
      json_response 200
        (VObj [("presignedUrl", VStr ("https://s3.test/" +:+ f));
               ("key", VStr ("uploads/" +:+ f))])
  | _ => empty_response 400
  end.

(** A network on which uploads succeed and the start-processing endpoint
    answers [start]. *)
Definition sample_net (start : response) : network := fun _ req =>
  if String.eqb (req_method req) "PUT" then Ret (empty_response 200)
  else if String.eqb (req_url req) "https://api.koenote.test/koenoto/presigned-url"
  then Ret (sample_presign req)
  else Ret start.

(** The same network, except that request number [k] is refused. *)
Definition refusing_net (k : nat) : network := fun n req =>
  if Nat.eqb n k then Ret (empty_response 500)
  else sample_net (empty_response 500) n req.

Definition async_start (executionArn : string) : response :=
  json_response 200 (VObj [("executionArn", VStr executionArn)]).

Definition running_status : response :=
  json_response 200 (VObj [("status", VStr "running"); ("percentComplete", VNum 40)]).


(** A completed status whose result is given directly. *)
Definition completed_with (title : string) : response :=
  json_response 200
    (VObj [("status", VStr "completed"); ("result", VObj [("title", VStr title)])]).


Definition sample_url (i : nat) : string :=
  "https://s3.test/" +:+ @filename_of sample_platform (2 * i) i sample_blob.
Definition sample_key (i : nat) : value :=
  VStr ("uploads/" +:+ @filename_of sample_platform (2 * i) i sample_blob).


(** A world in which the poll for execution ["E1"] has been established. *)
Definition polling_world : world :=
  @run sample_platform
    [RecorderStopped (sample_net (async_start "E1")) sample_blob] initial_world.


(** The browser's clock and identifier source, for the saving handler. *)
Definition sample_save_env : SaveEnv := {|
  uuid := fun n => "uuid-" +:+ pretty n;
  date_toISOString := fun _ => "2025-01-02T03:04:05.000Z";
  start_toTimeString := fun _ => "12:04:05 GMT+0900 (Japan Standard Time)";
  timestamp_toISOString := fun _ => "2025-01-02T03:04:05.000Z"
|}.

(** A network that gives every request the same answer, and one that is
    down. *)
Definition answering (res : response) : network := fun _ _ => Ret res.
Definition offline : network := fun _ _ => Throw (TypeError "Failed to fetch").

(** The fields of the list entry [sample_recording]. *)
Definition sample_entry : list (string * value) :=
  [("id", VStr "r1"); ("title", VStr "Weekly sync");
   ("date", VStr "2025-01-01"); ("start_time", VStr "10:00:00")].

(** The detail of a recording stored in two chunks, and of one stored as a
    single file. *)
Definition sample_detail : list (string * value) :=
  [("id", VStr "r1-v2"); ("title", VStr "Weekly sync");
   ("transcript", VStr "hello"); ("summary", VStr "greeting");
   ("keywords", VArr [VStr "sync"]);
   ("audioChunks", VArr [VStr "uploads/a.webm"; VStr "uploads/b.webm"])].

Definition sample_detail_single : list (string * value) :=
  [("id", VStr "r2"); ("title", VStr "Memo");
   ("audioUrl", VStr "https://cdn.koenote.test/r2.webm")].

(** The page after the entry has been opened and its two-chunk detail has
    arrived. *)
Definition opened_page : page :=
  @perform sample_platform sample_save_env
    (SelectRecording (answering (json_response 200 (VObj sample_detail))) (VObj sample_entry))
    initial_page.

(** A completed status whose result is given directly and names both an audio
    URL and chunks. *)
Definition direct_result : list (string * value) :=
  [("title", VStr "Standup"); ("transcript", VStr "all good");
   ("audioUrl", VStr "https://cdn.koenote.test/full.webm");
   ("audioChunks", VArr [VStr "uploads/other.webm"])].
Definition completed_directly : response :=
  json_response 200 (VObj [("status", VStr "completed"); ("result", VObj direct_result)]).

Section Properties.

Context `{Platform}.

(** ** Reasoning support *)

(** Reading the cells after a handler: an update hits its own cell and leaves
    the others alone. *)
Lemma insert_cell_eq (f : cell -> value) (c : cell) (v : value) :
  (<[c := v]> f) c = v.
Proof. apply fn_lookup_insert. Qed.

Lemma insert_cell_ne (f : cell -> value) (c c' : cell) (v : value) :
  c <> c' -> (<[c := v]> f) c' = f c'.
Proof. apply fn_lookup_insert_ne. Qed.

(** Unfold the monad and the primitive effects. *)
Ltac munfold :=
  unfold exec, mbind, mret, M_bind, M_ret, try_catch, lift, throw,
    setStatus, setSelectedRecording, setRecordings, setIsEditingBeforeSave,
    setTitle, setTranscript, setSummary, setKeywords, setRecordingDuration,
    setUploadedAudioUrl, setAudioChunks, setCurrentChunkIndex,
    setShowAudioPlayer, setExecutionArn, setProcessingStatus, setErrorMessage,
    setIsRecording, setCell, console_log, fetch, fetch_later in *.

Ltac cells_solve :=
  repeat first [ rewrite insert_cell_eq | rewrite insert_cell_ne by discriminate ];
  try done.

Ltac timers_solve :=
  intros; rewrite ?lookup_delete in *; repeat case_decide; subst;
  try done; try congruence.

(** ** Properties *)

(** C9. For every input blob, [createChunks] returns exactly one chunk, the
    input blob itself, whether its size is at most the threshold or above it;
    it only writes to the console. *)
Theorem createChunks_single (audioBlob : Blob) (w : world) :
  fst (createChunks audioBlob w) = Ret [audioBlob]
  /\ cells (exec (createChunks audioBlob) w) = cells w
  /\ requests (exec (createChunks audioBlob) w) = requests w
  /\ timers (exec (createChunks audioBlob) w) = timers w.
Proof.
  unfold createChunks.
  destruct (10 * blob_size audioBlob <=? TEN_MAX_CHUNK_SIZE)%Z; munfold; cbn; auto.
Qed.



Lemma poll_round_request_error (interval : Z) (tm : timer) (arn : string)
    (r : outcome response) (e : exn) (w : world) :
  timers w !! interval = Some tm ->
  ToString (timer_arn tm) = Ret arn ->
  request_error r = Some e ->
  poll_round interval w r =
    mkWorld (<[ProcessingStatus := VNull]>
               (<[Status := VStr msg_status_fetch_failed]> (cells w)))
      (timers w) (nextTimer w) (inflight w)
      (requests w ++ [status_request arn])
      (console w ++ [ErrStatusFetch e]).
Proof.
  intros Htm Harn Hr. unfold poll_round, step, tick_fire. munfold.
  rewrite Htm, Harn. cbn.
  rewrite list_lookup_middle by done. rewrite delete_middle.
  rewrite app_nil_r. unfold tick_resume. munfold.
  destruct r as [res|e']; cbn in *.
  - destruct (resp_json res); [done|]. injection Hr as ->. done.
  - injection Hr as ->. done.
Qed.

(** C8. Let the status request fail on every one of any number of ticks (the
    [fetch] rejects or the body does not parse).  Each failure is logged with
    [console.error], puts the generic message in the status line and clears
    the progress message, so that the status pill displays the generic
    message; the timer table is left as it was, so the interval stays live
    with its fixed period, and every tick issues the status request again:
    after [n] failing ticks [n] requests have gone out, whatever [n] is. *)
Theorem failing_ticks_keep_polling
    (interval : Z) (tm : timer) (arn : string) (rs : list (outcome response))
    (w : world) :
  timers w !! interval = Some tm ->
  ToString (timer_arn tm) = Ret arn ->
  Forall (fun r => is_Some (request_error r)) rs ->
  let w' := poll_rounds interval rs w in
  timers w' = timers w
  /\ cells w' PollingInterval = cells w PollingInterval
  /\ requests w' = requests w ++ replicate (length rs) (status_request arn)
  /\ console w' = console w ++ omap (fun r => ErrStatusFetch <$> request_error r) rs
  /\ (rs <> [] ->
        cells w' Status = VStr msg_status_fetch_failed
        /\ cells w' ProcessingStatus = VNull
        /\ StatusIndicator w' = Ret (Some (VStr msg_status_fetch_failed)))
  /\ cells w' Recordings = cells w Recordings.
Proof.
  intros Htm Harn Hrs. cbn. revert w Htm.
  induction Hrs as [|r rs [e He] _ IH]; intros w Htm.
  - cbn. rewrite !app_nil_r. done.
  - unfold poll_rounds. cbn [foldl].
    rewrite (poll_round_request_error interval tm arn r e w Htm Harn He).
    match goal with |- context [foldl _ ?w1 rs] => specialize (IH w1 Htm) end.
    unfold poll_rounds in IH. cbn [timers cells requests console] in IH.
    destruct IH as (Ht & Hp & Hreq & Hcon & Hst & Hrec).
    rewrite Ht, Hp, Hreq, Hcon, Hrec. cbn. rewrite He. cbn.
    rewrite <- !app_assoc. cbn.
    repeat split; cells_solve.
    all: destruct rs as [|r' rs'];
      [cbn; unfold StatusIndicator; cbn; cells_solve | by apply Hst].
Qed.

Lemma includes_slash_cons (a : ascii) (s : string) :
  includes "/" (String a s) = if Ascii.eqb a "/" then true else includes "/" s.
Proof.
  cbn [includes String.prefix].
  destruct (ascii_dec "/" a) as [<-|Hne].
  - cbn. by destruct s.
  - destruct (Ascii.eqb_spec a "/"); [congruence|done].
Qed.

Lemma split_on_last_strong (s : string) :
  exists seg, last (split_on "/" s) = Some seg
    /\ includes "/" seg = false
    /\ ((split_on "/" s = [seg] /\ s = seg)
        \/ exists pre h h' t, s = pre +:+ "/" +:+ seg /\ split_on "/" s = h :: h' :: t).
Proof.
  induction s as [|a s (seg & Hlast & Hno & Hs)].
  - exists "". repeat split; auto.
  - cbn [split_on]. destruct (Ascii.eqb_spec a "/") as [->|Hne].
    + exists seg. split.
      * destruct (split_on "/" s); done.
      * split; [done|]. right. destruct Hs as [[Hsplit ->]|(pre & h & h' & t & -> & Hsplit)].
        -- exists "", "", seg, []. by rewrite Hsplit.
        -- exists (String "/" pre), "", h, (h' :: t). by rewrite Hsplit.
    + destruct Hs as [[Hsplit ->]|(pre & h & h' & t & -> & Hsplit)].
      * rewrite Hsplit. exists (String a seg). split; [done|]. split.
        -- rewrite includes_slash_cons. destruct (Ascii.eqb_spec a "/"); done.
        -- by left.
      * rewrite Hsplit in *. exists seg. split; [done|].
        split; [done|]. right. by exists (String a pre), (String a h), h', t.
Qed.

Lemma pop_split_on (s : string) :
  exists seg, pop (split_on "/" s) = VStr seg /\ trailing_segment s seg.
Proof.
  destruct (split_on_last_strong s) as (seg & Hlast & Hno & Hs).
  exists seg. unfold pop, trailing_segment. rewrite Hlast. split; [done|].
  split; [done|]. destruct Hs as [[_ ->]|(pre & _ & _ & _ & -> & _)]; eauto.
Qed.

(** C4 (amended). For every presign response object whose [audioUrl], when it
    has to be consulted, is a string: the storage key is the [key] field when
    that is present, and otherwise the segment after the last ['/'] of
    [audioUrl]; the uploader goes on with the presigned URL and that key when
    both are present, and fails with the presign-response error as soon as
    either of them is missing. *)
Theorem extractPresigned_outcome (fields : list (string * value)) (w : world) :
  let presignedUrl := lookup_field "presignedUrl" fields in
  let key0 := lookup_field "key" fields in
  let audioUrl := lookup_field "audioUrl" fields in
  (truthy key0 = false -> truthy audioUrl = true -> exists s, audioUrl = VStr s) ->
  exists key,
    (truthy key0 = true -> key = key0)
    /\ (truthy key0 = false -> forall s, audioUrl = VStr s -> s <> "" ->
          exists seg, key = VStr seg /\ trailing_segment s seg)
    /\ (truthy key0 = false -> truthy audioUrl = false -> truthy key = false)
    /\ fst (extractPresigned (VObj fields) w) =
         (if truthy presignedUrl && truthy key then Ret (presignedUrl, key)
          else Throw (Error msg_presign_response)).
Proof.
  intros presignedUrl key0 audioUrl Hstr.
  unfold extractPresigned. munfold. cbn.
  fold presignedUrl key0 audioUrl.
  destruct (truthy key0) eqn:Hkey; cbn.
  - exists key0. rewrite Hkey. repeat split; try done.
    destruct (truthy presignedUrl); done.
  - destruct (truthy audioUrl) eqn:Haudio.
    + destruct (Hstr eq_refl eq_refl) as [s Hs]. rewrite Hs.
      destruct (pop_split_on s) as (seg & Hpop & Hseg).
      exists (VStr seg). rewrite Hpop. repeat split; try done.
      * intros _ s' [= <-] _. eauto.
      * destruct (truthy presignedUrl), (truthy (VStr seg)); done.
    + exists key0. rewrite Hkey. repeat split; try done.
      * intros _ s Hs Hne. rewrite Hs in Haudio. cbn in Haudio.
        destruct (String.eqb_spec s ""); done.
      * rewrite andb_false_r. destruct (truthy presignedUrl); done.
Qed.




Lemma extractPresigned_ret (presignedData : value) (x : value * value) (w : world) :
  fst (extractPresigned presignedData w) = Ret x ->
  extractPresigned presignedData w = (Ret x, w).
Proof.
  unfold extractPresigned. munfold.
  destruct (get presignedData "presignedUrl") as [u|]; cbn; [|done].
  destruct (get presignedData "key") as [k|]; cbn; [|done].
  destruct (get presignedData "audioUrl") as [a|]; cbn; [|done].
  destruct (negb (truthy k) && truthy a); cbn.
  - destruct a; cbn; try done.
    destruct (negb (truthy u) || negb (truthy (pop _))); cbn; [done|].
    by intros [= <-].
  - destruct (negb (truthy u) || negb (truthy k)); cbn; [done|].
    by intros [= <-].
Qed.

Lemma uploadChunk_goes_through (net : network) (n i : nat) (chunk : Blob)
    (presignedUrl : string) (key : value) (w : world) :
  chunk_goes_through net (length (requests w)) i chunk presignedUrl key ->
  fst (uploadChunk net n i chunk w) = Ret key
  /\ requests (exec (uploadChunk net n i chunk) w) =
       requests w ++ chunk_requests (length (requests w)) i presignedUrl chunk
  /\ timers (exec (uploadChunk net n i chunk) w) = timers w
  /\ forall c, c <> Status -> cells (exec (uploadChunk net n i chunk) w) c = cells w c.
Proof.
  intros (res & presignedData & url & res' & Hnet & Hok & Hjson & Hextract
          & [keyText Hkey] & Hurl & Hput & Hok').
  unfold printed in Hkey. destruct (ToString key) as [keyText'|] eqn:Hkey'; [|done].
  unfold uploadChunk. munfold. cbn. fold (filename_of (length (requests w)) i chunk).
  rewrite Hnet. cbn. rewrite Hok. cbn. rewrite Hjson. cbn.
  rewrite (extractPresigned_ret _ _ _ (Hextract _)). cbn. rewrite Hkey'. cbn.
  rewrite Hurl. cbn. rewrite length_app. cbn.
  replace (length (requests w) + 1) with (S (length (requests w))) by lia.
  rewrite Hput. cbn. rewrite Hok'. cbn.
  rewrite <- app_assoc. repeat split; cells_solve.
  intros c Hc. rewrite !insert_cell_ne by done. done.
Qed.

Lemma uploadChunks_from_all (net : network) (n : nat) (url : nat -> string)
    (key : nat -> value)
    (chunks : list Blob) :
  forall (i : nat) (uploadedUrls : list value) (w : world),
  (forall j chunk, chunks !! j = Some chunk ->
     chunk_goes_through net (length (requests w) + 2 * j) (i + j) chunk
       (url (i + j)) (key (i + j))) ->
  fst (uploadChunks_from net n i uploadedUrls chunks w) =
    Ret (uploadedUrls ++ (key <$> seq i (length chunks)))
  /\ requests (exec (uploadChunks_from net n i uploadedUrls chunks) w) =
       requests w ++
       concat (imap (fun j chunk =>
                       chunk_requests (length (requests w) + 2 * j) (i + j)
                         (url (i + j)) chunk) chunks)
  /\ timers (exec (uploadChunks_from net n i uploadedUrls chunks) w) = timers w.
Proof.
  induction chunks as [|chunk rest IH]; intros i acc w Hall.
  - cbn. rewrite !app_nil_r. done.
  - cbn [uploadChunks_from]. unfold exec, mbind, M_bind.
    pose proof (Hall 0 chunk eq_refl) as H0.
    rewrite Nat.mul_0_r, !Nat.add_0_r in H0.
    destruct (uploadChunk_goes_through net n i chunk _ _ w H0) as (Hout & Hreq & Htm & _).
    unfold exec in *.
    destruct (uploadChunk net n i chunk w) as [out w1]. cbn in Hout, Hreq, Htm. subst out.
    assert (Hlen : length (requests w1) = length (requests w) + 2)
      by (rewrite Hreq, length_app; done).
    destruct (IH (S i) (acc ++ [key i]) w1) as (Hout' & Hreq' & Htm').
    { intros j c Hj. rewrite Hlen.
      replace (length (requests w) + 2 + 2 * j) with (length (requests w) + 2 * S j) by lia.
      replace (S i + j) with (i + S j) by lia. by apply Hall. }
    rewrite Hout', Htm', Htm, Hreq', Hlen, Hreq.
    split; [|split; [|done]].
    + rewrite <- app_assoc. done.
    + rewrite <- app_assoc. f_equal. rewrite imap_cons. cbn [concat].
      rewrite Nat.mul_0_r, !Nat.add_0_r. do 2 f_equal.
      apply imap_ext. intros j c Hj. cbn [compose].
      replace (length (requests w) + 2 + 2 * j) with (length (requests w) + 2 * S j) by lia.
      replace (S i + j) with (i + S j) by lia. done.
Qed.

Lemma chunk_requests_methods (a b : nat -> nat) (u : nat -> string) (chunks : list Blob) :
  req_method <$> concat (imap (fun j chunk => chunk_requests (a j) (b j) (u j) chunk) chunks)
    = concat (replicate (length chunks) ["POST"; "PUT"])
  /\ omap (fun r => match req_body r with BlobBody b => Some b | _ => None end)
       (concat (imap (fun j chunk => chunk_requests (a j) (b j) (u j) chunk) chunks))
     = chunks.
Proof.
  revert a b u. induction chunks as [|chunk rest IH]; intros a b u; [done|].
  rewrite imap_cons. cbn [concat length replicate].
  destruct (IH (a ∘ S) (b ∘ S) (u ∘ S)) as [IH1 IH2].
  unfold compose in *. split.
  - rewrite fmap_app, IH1. done.
  - rewrite omap_app, IH2. done.
Qed.

(** C6. When the network lets every chunk through, [uploadChunks] returns one
    key per chunk, in the order of the chunks; the requests it issues are, for
    each chunk in turn, its presign request followed by its PUT, each issued
    once the answer to the one before has arrived: exactly one PUT per chunk,
    carrying the chunks in input order. *)
Theorem uploadChunks_all_succeed
    (net : network) (chunks : list Blob) (url : nat -> string) (key : nat -> value)
    (w : world) :
  (forall i chunk, chunks !! i = Some chunk ->
     chunk_goes_through net (length (requests w) + 2 * i) i chunk (url i) (key i)) ->
  let w' := exec (uploadChunks net chunks) w in
  let new :=
    concat (imap (fun i chunk =>
                    chunk_requests (length (requests w) + 2 * i) i (url i) chunk) chunks) in
  fst (uploadChunks net chunks w) = Ret (key <$> seq 0 (length chunks))
  /\ requests w' = requests w ++ new
  /\ req_method <$> new = concat (replicate (length chunks) ["POST"; "PUT"])
  /\ omap (fun r => match req_body r with BlobBody b => Some b | _ => None end) new = chunks.
Proof.
  intros Hall w' new. subst w' new. unfold uploadChunks.
  destruct (uploadChunks_from_all net (length chunks) url key chunks 0 [] w Hall)
    as (Hout & Hreq & _).
  split; [done|]. split; [done|].
  apply (chunk_requests_methods (fun i => length (requests w) + 2 * i) (fun i => i) url).
Qed.








Lemma evolves_refl (w : world) : evolves w w.
Proof. unfold evolves. split; [auto|split; [lia|auto]]. Qed.

Lemma evolves_trans (w1 w2 w3 : world) :
  evolves w1 w2 -> evolves w2 w3 -> evolves w1 w3.
Proof.
  intros (Hi & Hn & Ht) (Hi' & Hn' & Ht'). split; [auto|split; [lia|]].
  intros h Hh Hnone. apply Ht'; [lia|]. by apply Ht.
Qed.

Lemma evolves_frame (w w' : world) :
  timers w' = timers w -> nextTimer w' = nextTimer w ->
  cells w' PollingInterval = cells w PollingInterval ->
  evolves w w'.
Proof.
  intros Ht Hn Hc. unfold evolves, single_timer. rewrite Ht, Hn, Hc.
  split; [tauto|split; [lia|auto]].
Qed.

Lemma respects_ret {A} (a : A) : respects (mret a).
Proof. intros w. apply evolves_refl. Qed.

Lemma respects_throw {A} (e : exn) : respects (@throw A e).
Proof. intros w. apply evolves_refl. Qed.

Lemma respects_lift {A} (o : outcome A) : respects (lift o).
Proof. intros w. apply evolves_refl. Qed.

Lemma respects_bind {A B} (m : M A) (f : A -> M B) :
  respects m -> (forall a, respects (f a)) -> respects (m ≫= f).
Proof.
  intros Hm Hf w. unfold mbind, M_bind. specialize (Hm w).
  destruct (m w) as [[a|e] w1]; cbn in *; [|done].
  eapply evolves_trans; [exact Hm|apply Hf].
Qed.

Lemma respects_try_catch {A} (m : M A) (h : exn -> M A) :
  respects m -> (forall e, respects (h e)) -> respects (try_catch m h).
Proof.
  intros Hm Hh w. unfold try_catch. specialize (Hm w).
  destruct (m w) as [[a|e] w1]; cbn in *; [done|].
  eapply evolves_trans; [exact Hm|apply Hh].
Qed.

Lemma respects_setCell (c : cell) (v : value) :
  c <> PollingInterval -> respects (setCell c v).
Proof.
  intros Hc w. apply evolves_frame; cbn; auto. by rewrite insert_cell_ne.
Qed.

Lemma respects_console_log (e : console_entry) : respects (console_log e).
Proof. intros w. by apply evolves_frame. Qed.

Lemma respects_fetch (net : network) (req : request) : respects (fetch net req).
Proof. intros w. by apply evolves_frame. Qed.

Lemma respects_fetch_later (req : request) (p : pending) : respects (fetch_later req p).
Proof. intros w. by apply evolves_frame. Qed.

Lemma respects_clearInterval (v : value) : respects (clearInterval v).
Proof.
  intros w. unfold clearInterval. destruct v; try apply evolves_refl. cbn.
  unfold evolves, single_timer. cbn. split; [|split; [lia|]].
  - intros (Hpos & Hhandle & Hlive). split; [done|]. split; [done|].
    intros h tm [_ Hh]%lookup_delete_Some. eauto.
  - intros h _ Hnone. apply lookup_delete_None. auto.
Qed.

Lemma respects_polling_cleanup (v : value) : respects (polling_cleanup v).
Proof.
  unfold polling_cleanup. destruct (truthy v);
    [apply respects_clearInterval|apply respects_ret].
Qed.

Lemma respects_setPollingInterval_null : respects (setPollingInterval VNull).
Proof.
  intros w. unfold setPollingInterval.
  destruct (same_handle (cells w PollingInterval) VNull) eqn:Hsame; [apply evolves_refl|].
  change (snd ((setCell PollingInterval VNull;; polling_cleanup (cells w PollingInterval)) w))
    with (snd (polling_cleanup (cells w PollingInterval)
                 (with_cells (<[PollingInterval := VNull]> (cells w)) w))).
  destruct (respects_polling_cleanup (cells w PollingInterval)
              (with_cells (<[PollingInterval := VNull]> (cells w)) w)) as (_ & Hn & Ht).
  split; [|split; [exact Hn|exact Ht]].
  intros (Hpos & Hhandle & Hlive).
  destruct Hhandle as [Hnull|(h0 & Hh0 & Hrange)]; [by rewrite Hnull in Hsame|].
  unfold polling_cleanup, clearInterval. munfold. rewrite Hh0. cbn.
  destruct (Z.eqb_spec h0 0) as [->|_]; [lia|]. cbn.
  unfold single_timer. cbn. rewrite insert_cell_eq.
  split; [done|]. split; [by left|].
  intros h tm [Hne Hh]%lookup_delete_Some.
  specialize (Hlive h tm Hh). congruence.
Qed.

Lemma respects_unmount : respects unmount.
Proof. intros w. unfold unmount. apply respects_polling_cleanup. Qed.

Lemma startPolling_world (executionArn : value) (w : world) :
  let w' := snd (startPolling executionArn w) in
  fst (startPolling executionArn w) = Ret (VNum (nextTimer w))
  /\ nextTimer w' = (nextTimer w + 1)%Z
  /\ (forall h, h <> nextTimer w -> timers w !! h = None -> timers w' !! h = None)
  /\ (single_timer w ->
      cells w' PollingInterval = VNum (nextTimer w)
      /\ timers w' = {[ nextTimer w := mkTimer executionArn POLL_PERIOD ]}).
Proof.
  unfold startPolling, setInterval, setPollingInterval, polling_cleanup, clearInterval.
  munfold. cbn.
  destruct (cells w PollingInterval) as [| |b|n|s|l|l] eqn:Hold; cbn.
  all: try destruct b; try destruct (Z.eqb_spec n (nextTimer w));
    try destruct (Z.eqb_spec n 0); try destruct (negb (String.eqb s "")); cbn.
  all: split; [done|]; split; [done|]; split.
  all: try (intros h Hne Hnone; rewrite ?lookup_delete_None, lookup_insert_ne by done; auto).
  all: intros (Hpos & Hhandle & Hlive); rewrite ?insert_cell_eq.
  all: destruct Hhandle as [Hnull|(h0 & Hh0 & Hrange)];
    try congruence; try (rewrite Hold in Hh0; injection Hh0 as ->; lia).
  all: split; [done|].
  all: apply map_eq; intros h; destruct (decide (h = nextTimer w)) as [->|Hne].
  all: rewrite ?lookup_singleton_eq, ?lookup_singleton_ne by done.
  all: try (rewrite ?lookup_delete_ne by lia; apply lookup_insert_eq).
  all: try (rewrite lookup_insert_ne by done;
            destruct (timers w !! h) as [tm|] eqn:Hh; [|done];
            specialize (Hlive h tm Hh); congruence).
  apply lookup_delete_None. destruct (decide (n = h)) as [->|Hnh]; [by left|right].
  rewrite lookup_insert_ne by done.
  destruct (timers w !! h) as [tm|] eqn:Hh; [|done].
  specialize (Hlive h tm Hh). congruence.
Qed.

Lemma respects_startPolling (executionArn : value) : respects (startPolling executionArn).
Proof.
  intros w. destruct (startPolling_world executionArn w) as (_ & Hn & Hnone & Hinv).
  split; [|split; [lia|]].
  - intros Hw. destruct (Hinv Hw) as [Hcell Htimers]. destruct Hw as (Hpos & _).
    unfold single_timer. rewrite Hn, Hcell, Htimers.
    split; [lia|]. split; [right; exists (nextTimer w); split; [done|lia]|].
    intros h tm [-> _]%lookup_singleton_Some. done.
  - intros h Hh. apply Hnone. lia.
Qed.

Ltac respects_step :=
  match goal with
  | |- respects (mret _) => apply respects_ret
  | |- respects (throw _) => apply respects_throw
  | |- respects (lift _) => apply respects_lift
  | |- respects (console_log _) => apply respects_console_log
  | |- respects (fetch _ _) => apply respects_fetch
  | |- respects (fetch_later _ _) => apply respects_fetch_later
  | |- respects (setCell _ _) => apply respects_setCell; discriminate
  | |- respects (clearInterval _) => apply respects_clearInterval
  | |- respects (setPollingInterval VNull) => apply respects_setPollingInterval_null
  | |- respects (startPolling _) => apply respects_startPolling
  | |- respects (try_catch _ _) => apply respects_try_catch; [|intros ?]
  | |- respects (mbind _ _) => apply respects_bind; [|intros ?]
  | |- respects (fun w => (Ret _, w)) => intros ?; apply evolves_refl
  | |- respects (if ?b then _ else _) => destruct b
  | |- respects (match ?x with _ => _ end) => destruct x
  end.

Ltac respects_auto :=
  unfold setStatus, setSelectedRecording, setRecordings, setIsEditingBeforeSave,
    setTitle, setTranscript, setSummary, setKeywords, setRecordingDuration,
    setUploadedAudioUrl, setAudioChunks, setCurrentChunkIndex,
    setShowAudioPlayer, setExecutionArn, setProcessingStatus, setErrorMessage,
    setIsRecording;
  repeat respects_step.

Lemma respects_fetchRecordings_begin : respects fetchRecordings_begin.
Proof. unfold fetchRecordings_begin. respects_auto. Qed.

Lemma respects_fetchRecordings_resume (r : outcome response) :
  respects (fetchRecordings_resume r).
Proof. unfold fetchRecordings_resume, sort_recordings. respects_auto. Qed.

Lemma respects_extractPresigned (presignedData : value) :
  respects (extractPresigned presignedData).
Proof. unfold extractPresigned. respects_auto. Qed.

Lemma respects_uploadChunk (net : network) (n i : nat) (chunk : Blob) :
  respects (uploadChunk net n i chunk).
Proof.
  unfold uploadChunk. respects_auto; try apply respects_extractPresigned.
Qed.

Lemma respects_uploadChunks (net : network) (chunks : list Blob) :
  respects (uploadChunks net chunks).
Proof.
  unfold uploadChunks. generalize (length chunks) 0 (@nil value).
  induction chunks as [|chunk rest IH]; intros n i acc; cbn [uploadChunks_from].
  - apply respects_ret.
  - apply respects_bind; [apply respects_uploadChunk|intros key; apply IH].
Qed.

Lemma respects_createChunks (audioBlob : Blob) : respects (createChunks audioBlob).
Proof. unfold createChunks. respects_auto. Qed.

Lemma respects_publish_result (resultData : value) : respects (publish_result resultData).
Proof.
  unfold publish_result, map_chunk_urls. respects_auto;
    apply respects_fetchRecordings_begin.
Qed.

Lemma respects_decode_nested (resultData : value) : respects (decode_nested resultData).
Proof. unfold decode_nested. respects_auto. Qed.

Lemma respects_tick_resume (interval : Z) (r : outcome response) :
  respects (tick_resume interval r).
Proof.
  unfold tick_resume. respects_auto;
    try apply respects_decode_nested; try apply respects_publish_result.
Qed.

Lemma respects_tick_fire (interval : Z) : respects (tick_fire interval).
Proof.
  intros w. unfold tick_fire. destruct (timers w !! interval); [|apply evolves_refl].
  destruct (ToString _); [apply respects_fetch_later|apply respects_tick_resume].
Qed.

Lemma respects_dispatch_response (res : response) : respects (dispatch_response res).
Proof.
  unfold dispatch_response. respects_auto; apply respects_fetchRecordings_begin.
Qed.

Lemma respects_processAudio (net : network) (audioBlob : Blob) :
  respects (processAudio net audioBlob).
Proof.
  unfold processAudio. respects_auto;
    first [apply respects_createChunks | apply respects_uploadChunks
          | apply respects_dispatch_response].
Qed.

Lemma respects_resetState : respects resetState.
Proof. unfold resetState. respects_auto. Qed.

Lemma respects_startRecording (granted : bool) : respects (startRecording granted).
Proof. unfold startRecording. respects_auto; apply respects_resetState. Qed.

Lemma evolves_step (ev : event) (w : world) : evolves w (step ev w).
Proof.
  destruct ev as [granted|net blob|interval|i r| |]; cbn [step]; unfold exec.
  - apply respects_startRecording.
  - apply respects_processAudio.
  - apply respects_tick_fire.
  - destruct (inflight w !! i) as [[interval arn|]|]; [| |apply evolves_refl].
    + eapply evolves_trans; [|apply respects_tick_resume]. by apply evolves_frame.
    + eapply evolves_trans; [|apply respects_fetchRecordings_resume]. by apply evolves_frame.
  - apply respects_fetchRecordings_begin.
  - apply respects_unmount.
Qed.

Lemma evolves_run (evs : list event) (w : world) : evolves w (run evs w).
Proof.
  revert w. induction evs as [|ev evs IH]; intros w; [apply evolves_refl|].
  cbn. eapply evolves_trans; [apply evolves_step|apply IH].
Qed.

Lemma single_timer_initial : single_timer initial_world.
Proof. unfold single_timer. cbn. split; [lia|]. split; [by left|]. done. Qed.

Lemma startRecording_world (granted : bool) (w : world) :
  cells (exec (startRecording granted) w) ExecutionArn = VNull
  /\ cells (exec (startRecording granted) w) PollingInterval = cells w PollingInterval
  /\ timers (exec (startRecording granted) w) = timers w
  /\ requests (exec (startRecording granted) w) = requests w.
Proof.
  unfold startRecording, resetState. munfold. destruct granted; cbn;
    repeat split; cells_solve.
Qed.

(** X25. At most one interval is live at a time, and it is cleared when the
    next poll is established, not when the next session starts.  In any state
    the pipeline can reach: starting a recording session resets the stored
    execution id and leaves the timer table as it is; [startPolling] leaves
    exactly the timer it creates; from then on no two timers are ever live
    together, and a timer created before that poll is never live again, so
    it fires no further tick.  (An answer to a tick that fired earlier can
    still be delivered.) *)
Theorem one_poll_at_a_time (before after : list event) (executionArn : value) :
  let w := run before initial_world in
  let w1 := exec (startPolling executionArn) w in
  let w2 := run after w1 in
  (forall granted,
     cells (step (StartRecording granted) w) ExecutionArn = VNull
     /\ timers (step (StartRecording granted) w) = timers w)
  /\ timers w1 = {[ nextTimer w := mkTimer executionArn POLL_PERIOD ]}
  /\ (forall h h' tm tm',
        timers w2 !! h = Some tm -> timers w2 !! h' = Some tm' -> h = h')
  /\ (forall h, (h < nextTimer w)%Z ->
        timers w2 !! h = None /\ step (TimerFires h) w2 = w2).
Proof.
  intros w w1 w2.
  assert (Hw : single_timer w).
  { apply (evolves_run before initial_world), single_timer_initial. }
  destruct (startPolling_world executionArn w) as (_ & Hn & _ & Hinv).
  destruct (Hinv Hw) as [_ Htimers].
  assert (Hw1 : single_timer w1) by (by apply (respects_startPolling executionArn w)).
  destruct (evolves_run after w1) as (Hinv2 & _ & Hnone).
  split; [|split; [exact Htimers|split]].
  - intros granted. cbn [step].
    destruct (startRecording_world granted w) as (Harn & _ & Ht & _). done.
  - intros h h' tm tm' Hh Hh'. destruct (Hinv2 Hw1) as (_ & _ & Hlive).
    pose proof (Hlive h tm Hh) as E. pose proof (Hlive h' tm' Hh') as E'. fold w2 in E, E'.
    congruence.
  - intros h Hh.
    assert (Hgone : timers w2 !! h = None).
    { apply Hnone; [unfold w1, exec; lia|].
      unfold w1, exec. rewrite Htimers. apply lookup_singleton_ne. lia. }
    split; [exact Hgone|]. cbn [step]. unfold exec, tick_fire. by rewrite Hgone.
Qed.

(** ** The keyword field *)

Section TrimFront.

Variable w2 : ascii -> ascii -> bool.
Variable w3 : ascii -> ascii -> ascii -> bool.

Lemma trim_front_fixed (l : list ascii) :
  lead_ws w2 w3 l = false -> trim_front w2 w3 l = l.
Proof.
  destruct l as [|a [|b [|d r]]]; cbn; try done.
  - by destruct (ws1 a).
  - destruct (ws1 a); [done|]. cbn. by destruct (w2 a b).
  - destruct (ws1 a); [done|]. cbn. destruct (w2 a b); [done|]. cbn.
    by destruct (w3 a b d).
Qed.

Lemma trim_front_spec (n : nat) (l : list ascii) :
  length l <= n ->
  lead_ws w2 w3 (trim_front w2 w3 l) = false
  /\ exists p, l = p ++ trim_front w2 w3 l.
Proof.
  revert l. induction n as [|n IH]; intros l Hlen.
  - destruct l; [|cbn in Hlen; lia]. split; [done|]. by exists [].
  - destruct l as [|a r]; [split; [done|by exists []]|]. cbn in Hlen.
    cbn [trim_front]. destruct (ws1 a) eqn:H1.
    { destruct (IH r) as [Hlead [p Hp]]; [lia|]. split; [done|].
      exists (a :: p). cbn. by rewrite <- Hp. }
    destruct r as [|b r2]; [split; [by cbn; rewrite H1|by exists []]|].
    cbn in Hlen. destruct (w2 a b) eqn:H2.
    { destruct (IH r2) as [Hlead [p Hp]]; [lia|]. split; [done|].
      exists (a :: b :: p). cbn. by rewrite <- Hp. }
    destruct r2 as [|d r3]; [split; [by cbn; rewrite H1, H2|by exists []]|].
    cbn in Hlen. destruct (w3 a b d) eqn:H3.
    { destruct (IH r3) as [Hlead [p Hp]]; [lia|]. split; [done|].
      exists (a :: b :: d :: p). cbn. by rewrite <- Hp. }
    split; [by cbn; rewrite H1, H2, H3|by exists []].
Qed.

Lemma trim_front_no_lead (l : list ascii) : lead_ws w2 w3 (trim_front w2 w3 l) = false.
Proof. by apply (trim_front_spec (length l)). Qed.

Lemma trim_front_suffix (l : list ascii) : exists p, l = p ++ trim_front w2 w3 l.
Proof. by apply (trim_front_spec (length l)). Qed.

Lemma trim_front_idemp (l : list ascii) :
  trim_front w2 w3 (trim_front w2 w3 l) = trim_front w2 w3 l.
Proof. apply trim_front_fixed, trim_front_no_lead. Qed.

Lemma lead_ws_prefix (p u : list ascii) :
  lead_ws w2 w3 (p ++ u) = false -> lead_ws w2 w3 p = false.
Proof.
  destruct p as [|a [|b [|d r]]]; cbn; try done.
  - destruct (ws1 a); [done|]. done.
  - destruct (ws1 a); [done|]. cbn. destruct (w2 a b); [done|]. done.
Qed.

End TrimFront.

Lemma trimEnd_prefix (l : list ascii) : exists u, l = trimEnd l ++ u.
Proof.
  unfold trimEnd.
  destruct (trim_front_suffix (fun a b => ws2 b a) (fun a b d => ws3 d b a) (rev l))
    as [p Hp].
  exists (rev p). rewrite <- rev_app_distr, <- Hp, rev_involutive. done.
Qed.

Lemma trimEnd_idemp (l : list ascii) : trimEnd (trimEnd l) = trimEnd l.
Proof. unfold trimEnd. by rewrite rev_involutive, trim_front_idemp. Qed.

Lemma trimStart_trimEnd (l : list ascii) :
  trimStart (trimEnd (trimStart l)) = trimEnd (trimStart l).
Proof.
  unfold trimStart. apply trim_front_fixed.
  destruct (trimEnd_prefix (trim_front ws2 ws3 l)) as [u Hu].
  apply (lead_ws_prefix _ _ _ u). rewrite <- Hu. apply trim_front_no_lead.
Qed.

Lemma list_ascii_of_trim (s : string) :
  String.list_ascii_of_string (trim s)
    = trimEnd (trimStart (String.list_ascii_of_string s)).
Proof. unfold trim. apply String.list_ascii_of_string_of_list_ascii. Qed.

Lemma trim_idemp (s : string) : trim (trim s) = trim s.
Proof.
  unfold trim at 1. rewrite list_ascii_of_trim, trimStart_trimEnd, trimEnd_idemp.
  done.
Qed.

Lemma split_where_no_separator (sep : ascii -> bool) (l : list ascii) :
  Forall (Forall (fun a => sep a = false)) (split_where sep l).
Proof.
  induction l as [|a r IH]; cbn; [by repeat constructor|].
  destruct (sep a) eqn:Ha; [by constructor|].
  destruct (split_where sep r) as [|h t]; [by repeat constructor|].
  inversion IH; subst. constructor; [by constructor|done].
Qed.

Lemma Forall_trim (P : ascii -> Prop) (l : list ascii) :
  Forall P l -> Forall P (trimEnd (trimStart l)).
Proof.
  intros Hl.
  destruct (trim_front_suffix ws2 ws3 l) as [p Hp].
  destruct (trimEnd_prefix (trimStart l)) as [u Hu]. unfold trimStart in *.
  rewrite Hp, Hu in Hl. apply Forall_app in Hl as [_ Hl].
  by apply Forall_app in Hl as [Hl _].
Qed.

Lemma parse_keywords_clean (val : string) : Forall clean_keyword (parse_keywords val).
Proof.
  unfold parse_keywords. apply Forall_forall. intros k Hk.
  apply list_elem_of_filter in Hk as [Hne Hk].
  apply list_elem_of_fmap in Hk as (s & -> & Hs).
  apply list_elem_of_fmap in Hs as (seg & -> & Hseg).
  split; [done|]. split; [|apply trim_idemp].
  rewrite list_ascii_of_trim, String.list_ascii_of_string_of_list_ascii.
  apply Forall_trim.
  pose proof (split_where_no_separator is_keyword_separator
                (String.list_ascii_of_string val)) as Hall.
  rewrite Forall_forall in Hall. by apply Hall.
Qed.

Lemma list_ascii_of_append (s1 s2 : string) :
  String.list_ascii_of_string (s1 +:+ s2)
    = String.list_ascii_of_string s1 ++ String.list_ascii_of_string s2.
Proof. induction s1 as [|a s1 IH]; simpl; [done|]. by f_equal. Qed.

Lemma split_where_cons (sep : ascii -> bool) (l : list ascii) :
  exists h t, split_where sep l = h :: t.
Proof.
  induction l as [|a r (h & t & IH)]; cbn; [by eexists _, _|].
  rewrite IH. destruct (sep a); by eexists _, _.
Qed.

Lemma split_where_app_clean (sep : ascii -> bool) (k l : list ascii) (h : list ascii)
    (t : list (list ascii)) :
  Forall (fun a => sep a = false) k ->
  split_where sep l = h :: t ->
  split_where sep (k ++ l) = (k ++ h) :: t.
Proof.
  intros Hk Hl. induction Hk as [|a k Ha _ IH]; cbn; [done|].
  by rewrite Ha, IH.
Qed.

Lemma split_where_snoc_separator (sep : ascii -> bool) (l : list ascii) (a : ascii) :
  sep a = true -> split_where sep (l ++ [a]) = split_where sep l ++ [[]].
Proof.
  intros Ha. induction l as [|b r IH]; cbn; [by rewrite Ha|].
  rewrite IH. destruct (sep b); [done|].
  destruct (split_where_cons sep r) as (h & t & ->). done.
Qed.

Lemma trim_clean_after_space (k : string) : trim (String " " k) = trim k.
Proof. reflexivity. Qed.

Lemma join_with_strings (sep : string) (ks : list string) :
  join_with sep (VStr <$> ks) = Ret (String.concat sep ks).
Proof.
  induction ks as [|k r IH]; [done|].
  destruct r as [|k2 r]; [done|].
  change (join_with sep (VStr <$> k :: k2 :: r))
    with (match join_with sep (VStr <$> k2 :: r) with
          | Throw e => Throw e
          | Ret sr => Ret (k +:+ sep +:+ sr)
          end).
  by rewrite IH.
Qed.

Lemma split_where_join (k : string) (ks : list string) :
  Forall clean_keyword (k :: ks) ->
  split_where is_keyword_separator
    (String.list_ascii_of_string (String.concat ", " (k :: ks)))
  = String.list_ascii_of_string k
      :: ((fun k' => " "%char :: String.list_ascii_of_string k') <$> ks).
Proof.
  revert k. induction ks as [|k2 r IH]; intros k Hall.
  - inversion Hall as [|? ? (_ & Hsep & _) _]; subst. cbn.
    rewrite <- (app_nil_r (String.list_ascii_of_string k)) at 1.
    erewrite split_where_app_clean; [|done|reflexivity]. by rewrite app_nil_r.
  - inversion Hall as [|? ? (_ & Hsep & _) Hrest]; subst.
    change (String.concat ", " (k :: k2 :: r))
      with (k +:+ ", " +:+ String.concat ", " (k2 :: r)).
    rewrite !list_ascii_of_append.
    erewrite split_where_app_clean; [|done|].
    2:{ cbn [String.list_ascii_of_string app split_where is_keyword_separator].
        cbn [Ascii.eqb Bool.eqb orb andb]. rewrite (IH k2 Hrest). reflexivity. }
    by rewrite app_nil_r.
Qed.

Lemma parse_keywords_join (ks : list string) :
  Forall clean_keyword ks -> parse_keywords (String.concat ", " ks) = ks.
Proof.
  intros Hall. destruct ks as [|k ks]; [done|].
  unfold parse_keywords. rewrite (split_where_join k ks Hall).
  rewrite !fmap_cons, String.string_of_list_ascii_of_string.
  inversion Hall as [|? ? (Hne & _ & Htrim) Hrest]; subst.
  rewrite Htrim, filter_cons_True by done. f_equal.
  clear Hall Hne Htrim. induction Hrest as [|k' r (Hne & _ & Htrim) _ IH]; [done|].
  rewrite !fmap_cons. cbn [String.string_of_list_ascii].
  rewrite String.string_of_list_ascii_of_string, trim_clean_after_space, Htrim.
  rewrite filter_cons_True by done. by rewrite IH.
Qed.

(** X1. Whatever is typed into the keyword field, every keyword that
    [handleKeywordsChange] stores is non-empty, contains no comma and no
    newline, and has no whitespace at either end; no other cell changes. *)
Theorem handleKeywordsChange_clean (val : string) (w : world) :
  let w' := exec (handleKeywordsChange val) w in
  cells w' Keywords = VArr (VStr <$> parse_keywords val)
  /\ Forall clean_keyword (parse_keywords val)
  /\ (forall c, c <> Keywords -> cells w' c = cells w c)
  /\ requests w' = requests w.
Proof.
  unfold handleKeywordsChange. munfold. cbn. rewrite insert_cell_eq.
  repeat split; [apply parse_keywords_clean|].
  intros c Hc. by rewrite insert_cell_ne.
Qed.

(** X2. The keyword field shows [keywords.join(", ")]; when the stored
    keywords are clean, that text is the keywords separated by a comma and a
    space, and feeding it back to [handleKeywordsChange] stores the same
    keywords. *)
Theorem keywords_round_trip (ks : list string) (w : world) :
  Forall clean_keyword ks ->
  cells w Keywords = VArr (VStr <$> ks) ->
  keywords_text w = Ret (String.concat ", " ks)
  /\ cells (exec (handleKeywordsChange (String.concat ", " ks)) w) Keywords
     = cells w Keywords.
Proof.
  intros Hall Hcell. unfold keywords_text. rewrite Hcell.
  split; [apply join_with_strings|].
  unfold handleKeywordsChange. munfold. cbn. rewrite insert_cell_eq.
  by rewrite parse_keywords_join.
Qed.

(** X3. A comma or a newline typed at the end of the keyword field is
    dropped: the keywords stored are those of the text without it. *)
Theorem trailing_separator_ignored (val : string) (a : ascii) :
  is_keyword_separator a = true ->
  parse_keywords (val +:+ String a "") = parse_keywords val.
Proof.
  intros Ha. unfold parse_keywords.
  rewrite list_ascii_of_append. cbn [String.list_ascii_of_string].
  rewrite split_where_snoc_separator by done.
  rewrite !fmap_app, filter_app. cbn. apply app_nil_r.
Qed.

(** ** The handlers of the rest of the page *)

(** Run the handlers' monadic code, leaving the cell updates in place. *)
Ltac prun :=
  lazy beta iota zeta delta
    [pexec inner ptry_catch ptry_finally page_log setView
     setIsLoading setCopied setIsSidebarOpen setRecordingStartTime
     P_bind P_ret mbind mret M_bind M_ret try_catch lift throw exec
     setStatus setSelectedRecording setRecordings setIsEditingBeforeSave
     setTitle setTranscript setSummary setKeywords setRecordingDuration
     setUploadedAudioUrl setAudioChunks setCurrentChunkIndex
     setShowAudioPlayer setExecutionArn setProcessingStatus setErrorMessage
     setIsRecording setCell console_log fetch fetch_later
     with_cells with_timers with_nextTimer with_inflight with_requests with_console
     cells timers nextTimer inflight requests console
     pipeline view page_console fst snd] in *.

(** Name the components of a page or of a world. *)
Ltac popen p :=
  destruct p as [[? ? ? ? ? ?] ? ?];
  cbn [pipeline view page_console cells timers nextTimer inflight requests console] in *.

Ltac wopen w :=
  destruct w as [? ? ? ? ? ?];
  cbn [cells timers nextTimer inflight requests console] in *.

(** The URLs of keys that have a text are the URLs of the texts, in order. *)
Lemma chunk_urls_texts (keys : list value) (texts : list string) :
  Forall2 (fun key text => ToString key = Ret text) keys texts ->
  chunk_urls keys = Ret (chunk_url <$> texts).
Proof.
  induction 1 as [|key text keys texts Hkey _ IH]; [done|].
  cbn [chunk_urls]. by rewrite Hkey, IH.
Qed.

Lemma chunk_urls_Forall (keys urls : list value) :
  chunk_urls keys = Ret urls ->
  Forall (fun v => exists key : string, v = chunk_url key) urls.
Proof.
  revert urls. induction keys as [|key keys IH]; intros urls Hurls; cbn in Hurls.
  - injection Hurls as <-. constructor.
  - destruct (ToString key) as [s|]; [|done].
    destruct (chunk_urls keys) as [urls'|]; [|done].
    injection Hurls as <-. constructor; [by exists s|by apply IH].
Qed.

(** X4. When the detail of a clicked recording cannot be fetched (its id has
    no text, the request is rejected, is answered with a non-success status,
    or its body cannot be decoded), the clicked entry stays selected, the
    four text fields and the audio URL are blank, the player is hidden, the
    page is not in edit mode, the status line reports the failure, and
    exactly one request was issued (none when the id has no text). *)
Theorem select_failure_blanks_fields
    (net : network) (fields : list (string * value)) (p : page) :
  let recording := VObj fields in
  let id := lookup_field "id" fields in
  let w := pipeline p in
  match ToString id with
  | Throw _ => True
  | Ret idText =>
      match net (length (requests w)) (recording_request idText) with
      | Throw _ => True
      | Ret res => ok res = false \/ exists e, resp_json res = Throw e
      end
  end ->
  let w' := pipeline (pexec (handleSelectRecording net recording) p) in
  cells w' SelectedRecording = recording
  /\ cells w' Title = VStr "" /\ cells w' Transcript = VStr ""
  /\ cells w' Summary = VStr "" /\ cells w' Keywords = VArr []
  /\ cells w' UploadedAudioUrl = VStr ""
  /\ cells w' ShowAudioPlayer = VBool false
  /\ cells w' IsEditingBeforeSave = VBool false
  /\ (exists m, cells w' Status = VStr ("録音データの取得に失敗しました: " +:+ m))
  /\ requests w' = requests w ++ match ToString id with
                                 | Ret idText => [recording_request idText]
                                 | Throw _ => []
                                 end.
Proof.
  intros recording id w Hfail w'. subst recording id w w'.
  popen p.
  unfold handleSelectRecording, fetchRecording. prun. cbn [get].
  destruct (ToString (lookup_field "id" fields)) as [idText|e0]; prun.
  2:{ rewrite app_nil_r. repeat split; cells_solve. eexists. cells_solve. }
  destruct (net _ _) as [res|e]; prun.
  - destruct Hfail as [Hok|[e He]].
    + rewrite Hok. prun. repeat split; cells_solve. eexists. cells_solve.
    + destruct (ok res); prun; rewrite ?He; prun;
        (repeat split; cells_solve; eexists; cells_solve).
  - repeat split; cells_solve. eexists. cells_solve.
Qed.

(** X5. When the detail of a clicked recording arrives as an object (its
    chunk list absent or an array of keys that have a text), the selection
    becomes the fetched detail,
    the four text fields show its values (absent ones are blank), the player
    is shown exactly when the detail has a non-empty chunk list or an audio
    URL, the status line is cleared, and exactly one request was issued. *)
Theorem select_success_shows_detail
    (net : network) (fields data : list (string * value)) (idText : string)
    (res : response) (p : page) :
  let recording := VObj fields in
  let req := recording_request idText in
  let w := pipeline p in
  let audioChunks := lookup_field "audioChunks" data in
  ToString (lookup_field "id" fields) = Ret idText ->
  net (length (requests w)) req = Ret res ->
  ok res = true ->
  resp_json res = Ret (VObj data) ->
  (audioChunks = VUndef
   \/ exists items texts, audioChunks = VArr items
        /\ Forall2 (fun key text => ToString key = Ret text) items texts) ->
  let w' := pipeline (pexec (handleSelectRecording net recording) p) in
  cells w' SelectedRecording = VObj data
  /\ cells w' Title = js_or (lookup_field "title" data) (VStr "")
  /\ cells w' Transcript = js_or (lookup_field "transcript" data) (VStr "")
  /\ cells w' Summary = js_or (lookup_field "summary" data) (VStr "")
  /\ cells w' Keywords = js_or (lookup_field "keywords" data) (VArr [])
  /\ cells w' ShowAudioPlayer =
       VBool (match audioChunks with VArr (_ :: _) => true | _ => false end
              || truthy (lookup_field "audioUrl" data))
  /\ cells w' IsEditingBeforeSave = VBool false
  /\ cells w' Status = VStr ""
  /\ requests w' = requests w ++ [req].
Proof.
  intros recording req w audioChunks Hid Hnet Hok Hjson Hshape w'.
  subst recording req w w'. popen p.
  unfold handleSelectRecording, fetchRecording, map_detail_chunk_urls, nonempty.
  prun. cbn [get]. rewrite Hid. prun. rewrite Hnet. prun. rewrite Hok. prun.
  rewrite Hjson. prun.
  cbn [get]. fold audioChunks.
  destruct Hshape as [->|(items & texts & -> & Htexts)]; cbn [truthy length_gt0 andb].
  - prun. cbn [get]. destruct (truthy (lookup_field "audioUrl" data)); prun;
      repeat split; cells_solve.
  - destruct items as [|k ks]; cbn [length Nat.eqb negb].
    + prun. cbn [get]. destruct (truthy (lookup_field "audioUrl" data)); prun;
        repeat split; cells_solve.
    + prun. rewrite (chunk_urls_texts _ _ Htexts). prun.
      repeat split; cells_solve.
Qed.

(** X6. A detail with a non-empty chunk list, of keys that have a text, makes
    the player play its first chunk: the chunk list becomes the URLs of the
    keys' texts in order, the index is 0,
    and the audio URL stays blank whether or not the detail carries one. *)
Theorem detail_chunks_take_precedence
    (net : network) (fields data : list (string * value)) (idText : string)
    (res : response) (keys : list value) (k : string) (ks : list string) (p : page) :
  let recording := VObj fields in
  let req := recording_request idText in
  let w := pipeline p in
  ToString (lookup_field "id" fields) = Ret idText ->
  net (length (requests w)) req = Ret res ->
  ok res = true ->
  resp_json res = Ret (VObj data) ->
  lookup_field "audioChunks" data = VArr keys ->
  Forall2 (fun key text => ToString key = Ret text) keys (k :: ks) ->
  let w' := pipeline (pexec (handleSelectRecording net recording) p) in
  cells w' AudioChunks = VArr (chunk_url <$> k :: ks)
  /\ cells w' CurrentChunkIndex = VNum 0
  /\ cells w' ShowAudioPlayer = VBool true
  /\ cells w' UploadedAudioUrl = VStr ""
  /\ AudioPlayer w' = AudioElement (chunk_url k).
Proof.
  intros recording req w Hid Hnet Hok Hjson Hchunks Htexts w'.
  subst recording req w w'. popen p.
  unfold AudioPlayer, handleSelectRecording, fetchRecording, map_detail_chunk_urls,
    nonempty.
  prun. cbn [get]. rewrite Hid. prun. rewrite Hnet. prun. rewrite Hok. prun.
  rewrite Hjson. prun.
  cbn [get]. rewrite Hchunks. cbn [truthy length_gt0 andb].
  rewrite (chunk_urls_texts _ _ Htexts).
  destruct keys as [|key keys]; [by apply Forall2_nil_cons_inv in Htexts|].
  cbn [length Nat.eqb negb]. prun. cells_solve.
Qed.

(** X7. A detail without chunks but with an audio URL stores that URL and
    leaves the chunk list and the index of the recording shown before as they
    were; with such chunks still present the player goes on playing the old
    chunk, not the new URL. *)
Theorem detail_without_chunks_keeps_old_chunks
    (net : network) (fields data : list (string * value)) (idText : string)
    (res : response) (olds : list value) (i : Z) (u : value) (p : page) :
  let recording := VObj fields in
  let req := recording_request idText in
  let w := pipeline p in
  ToString (lookup_field "id" fields) = Ret idText ->
  net (length (requests w)) req = Ret res ->
  ok res = true ->
  resp_json res = Ret (VObj data) ->
  lookup_field "audioChunks" data = VUndef ->
  truthy (lookup_field "audioUrl" data) = true ->
  cells w AudioChunks = VArr olds ->
  cells w CurrentChunkIndex = VNum i ->
  (0 <= i)%Z ->
  olds !! Z.to_nat i = Some u ->
  let w' := pipeline (pexec (handleSelectRecording net recording) p) in
  cells w' UploadedAudioUrl = lookup_field "audioUrl" data
  /\ cells w' AudioChunks = VArr olds
  /\ cells w' CurrentChunkIndex = VNum i
  /\ AudioPlayer w' = AudioElement u.
Proof.
  intros recording req w Hid Hnet Hok Hjson Hchunks Hurl Holds Hidx Hi Hu w'.
  subst recording req w w'. popen p.
  unfold AudioPlayer, handleSelectRecording, fetchRecording, map_detail_chunk_urls,
    nonempty.
  prun. cbn [get]. rewrite Hid. prun. rewrite Hnet. prun. rewrite Hok. prun.
  rewrite Hjson. prun.
  cbn [get]. rewrite Hchunks. cbn [truthy andb].
  prun. cbn [get]. rewrite Hurl. prun. cells_solve. cbn [truthy negb].
  rewrite Holds, Hidx.
  destruct olds as [|o olds']; [done|].
  destruct (Z.ltb_spec i 0); [lia|]. rewrite Hu. repeat split.
Qed.

(** X8. Deleting with nothing selected does nothing: no cell is written and
    no request is sent.  With a selection, when the id has no text, or the
    DELETE request is rejected or answered with a non-success status, the
    status line reports the failure and nothing else changes: the selection
    and every other cell are kept, the DELETE request is the only request
    sent (none when the id has no text), no list refresh is pending, and the
    polling intervals are untouched. *)
Theorem handleDelete_unsuccessful_keeps_state (net : network) (w : world) :
  let selectedRecording := cells w SelectedRecording in
  let id := match get selectedRecording "id" with Ret v => v | Throw _ => VUndef end in
  let sent := match ToString id with
              | Ret idText => [delete_request idText]
              | Throw _ => []
              end in
  (truthy selectedRecording = false
   \/ match ToString id with
      | Throw _ => True
      | Ret idText =>
          match net (length (requests w)) (delete_request idText) with
          | Throw _ => True
          | Ret res => ok res = false
          end
      end) ->
  let w' := exec (handleDelete net) w in
  (truthy selectedRecording = false -> w' = w)
  /\ (truthy selectedRecording = true ->
      (exists m, cells w' Status = VStr ("削除に失敗: " +:+ m))
      /\ requests w' = requests w ++ sent)
  /\ (forall c, c <> Status -> cells w' c = cells w c)
  /\ timers w' = timers w
  /\ inflight w' = inflight w
  /\ console w' = console w.
Proof.
  intros selectedRecording id sent Hfail w'. subst selectedRecording id sent w'.
  wopen w.
  unfold handleDelete. prun.
  destruct (truthy (_ SelectedRecording)) eqn:Hsel; cbn [negb].
  2:{ split; [done|]. split; [done|]. repeat split; auto. }
  destruct Hfail as [|Hfail]; [done|].
  split; [done|].
  destruct (_ SelectedRecording) eqn:Hcell; cbn [get truthy] in *; try done.
  all: destruct (ToString _) as [idText|e0]; prun.
  all: try (destruct (net _ _) as [res|e]; prun; rewrite ?Hfail; prun).
  all: rewrite ?app_nil_r.
  all: repeat split; auto; try (eexists; cells_solve).
  all: intros c Hc; rewrite !insert_cell_ne by done; done.
Qed.

(** X9. When the DELETE request, for the text of the selection's id,
    succeeds, the selection, the text fields,
    the chunks and the execution id are reset, a refresh of the list is
    requested right after the DELETE request, the status line ends as the
    confirmation of the deletion, the list itself is unchanged until the
    refresh arrives, and a running poll is left alone. *)
Theorem handleDelete_success_resets_and_refreshes
    (net : network) (idText : string) (res : response) (w : world) :
  let selectedRecording := cells w SelectedRecording in
  let id := match get selectedRecording "id" with Ret v => v | Throw _ => VUndef end in
  truthy selectedRecording = true ->
  ToString id = Ret idText ->
  net (length (requests w)) (delete_request idText) = Ret res ->
  ok res = true ->
  let w' := exec (handleDelete net) w in
  cells w' SelectedRecording = VNull
  /\ cells w' Title = VStr "" /\ cells w' Transcript = VStr ""
  /\ cells w' Summary = VStr "" /\ cells w' Keywords = VArr []
  /\ cells w' AudioChunks = VArr [] /\ cells w' CurrentChunkIndex = VNum 0
  /\ cells w' ExecutionArn = VNull
  /\ cells w' Status = VStr "削除しました"
  /\ cells w' Recordings = cells w Recordings
  /\ requests w' = requests w ++ [delete_request idText; list_request]
  /\ inflight w' = inflight w ++ [PendingList]
  /\ timers w' = timers w
  /\ cells w' PollingInterval = cells w PollingInterval.
Proof.
  intros selectedRecording id Hsel Hid Hnet Hok w'. subst selectedRecording id w'.
  wopen w.
  unfold handleDelete, resetState, fetchRecordings_begin. prun.
  rewrite Hsel. cbn [negb].
  destruct (_ SelectedRecording) eqn:Hcell; cbn [get truthy] in *; try done.
  all: rewrite Hid; prun; rewrite Hnet; prun; rewrite Hok; prun.
  all: rewrite <- app_assoc; repeat split; cells_solve.
Qed.

(** ** With the browser's clock and identifiers *)

Section WholePage.

Context `{SaveEnv}.

Lemma truthy_js_or (a b : value) : truthy b = true -> truthy (js_or a b) = true.
Proof. unfold js_or. by destruct (truthy a) eqn:Ha. Qed.

(** X10. When saving fails (the request is rejected, is answered with a
    non-success status, or its body cannot be decoded), the loading flag is
    cleared again, only the status line and the error message change, so the
    edit form keeps its contents, and no list refresh is requested. *)
Theorem save_failure_keeps_edit_form
    (net : network) (items : list value) (p : page) :
  let w := pipeline p in
  let recordingData :=
    match fst (build_recordingData p) with Ret d => d | Throw _ => VUndef end in
  view p RecordingStartTime = VNull ->
  cells w AudioChunks = VArr items ->
  match net (length (requests w)) (save_request recordingData) with
  | Throw _ => True
  | Ret res => ok res = false \/ exists e, resp_json res = Throw e
  end ->
  let p' := pexec (saveRecording net) p in
  let w' := pipeline p' in
  view p' IsLoading = VBool false
  /\ (forall c, c <> Status -> c <> ErrorMessage -> cells w' c = cells w c)
  /\ (exists m, cells w' Status = VStr ("保存に失敗しました: " +:+ m))
  /\ cells w' ErrorMessage = VStr "録音の保存中にエラーが発生しました。"
  /\ requests w' = requests w ++ [save_request recordingData]
  /\ inflight w' = inflight w.
Proof.
  intros w recordingData Hstart Hchunks Hfail p' w'. subst w recordingData p' w'.
  popen p.
  unfold saveRecording, build_recordingData in *. prun.
  rewrite fn_lookup_insert_ne by discriminate.
  rewrite !insert_cell_ne by discriminate.
  rewrite Hstart, Hchunks in *. cbn [truthy length_gt0] in *. prun.
  destruct (net _ _) as [res|e]; prun.
  - destruct Hfail as [Hok|[e He]].
    + rewrite Hok. prun.
      repeat split; cells_solve; try (eexists; cells_solve).
      intros c Hc Hc'. by rewrite !insert_cell_ne.
    + destruct (ok res); prun; rewrite ?He; prun.
      all: repeat split; cells_solve; try (eexists; cells_solve).
      all: intros c Hc Hc'; by rewrite !insert_cell_ne.
  - repeat split; cells_solve; try (eexists; cells_solve).
    intros c Hc Hc'. by rewrite !insert_cell_ne.
Qed.

(** X11. When saving succeeds, the request carries the edited fields (a
    title in every case, the chunk URLs only when there are some), the saved
    payload becomes the selection, the page leaves edit mode and shows the
    player, the loading flag is cleared, and a refresh of the list is
    requested right after the save request. *)
Theorem save_success_selects_and_refreshes
    (net : network) (items : list value) (res : response) (savedData : value) (p : page) :
  let w := pipeline p in
  let recordingData :=
    match fst (build_recordingData p) with Ret d => d | Throw _ => VUndef end in
  view p RecordingStartTime = VNull ->
  cells w AudioChunks = VArr items ->
  net (length (requests w)) (save_request recordingData) = Ret res ->
  ok res = true ->
  resp_json res = Ret savedData ->
  let p' := pexec (saveRecording net) p in
  let w' := pipeline p' in
  (exists fields,
     recordingData = VObj fields
     /\ truthy (lookup_field "title" fields) = true
     /\ lookup_field "transcript" fields = js_or (cells w Transcript) (VStr "")
     /\ lookup_field "summary" fields = js_or (cells w Summary) (VStr "")
     /\ lookup_field "keywords" fields = js_or (cells w Keywords) (VArr [])
     /\ lookup_field "audioUrl" fields = cells w UploadedAudioUrl
     /\ lookup_field "audioChunksUrls" fields
        = match items with [] => VUndef | _ :: _ => VArr items end)
  /\ cells w' SelectedRecording = recordingData
  /\ cells w' IsEditingBeforeSave = VBool false
  /\ cells w' ShowAudioPlayer = VBool true
  /\ cells w' Status = VStr "保存しました"
  /\ view p' IsLoading = VBool false
  /\ requests w' = requests w ++ [save_request recordingData; list_request]
  /\ inflight w' = inflight w ++ [PendingList].
Proof.
  intros w recordingData Hstart Hchunks Hnet Hok Hjson p' w'.
  subst w recordingData p' w'. popen p.
  unfold saveRecording, build_recordingData, fetchRecordings_begin in *.
  prun.
  rewrite fn_lookup_insert_ne by discriminate.
  rewrite !insert_cell_ne by discriminate.
  rewrite Hstart, Hchunks in *. cbn [truthy length_gt0] in *. prun.
  rewrite Hnet. prun. rewrite Hok. prun. rewrite Hjson. prun.
  rewrite <- app_assoc.
  split.
  - eexists. split; [reflexivity|]. cbn [lookup_field String.eqb Ascii.eqb Bool.eqb].
    split; [by apply truthy_js_or|]. repeat split. by destruct items.
  - repeat split; cells_solve.
Qed.

(** ** Invariants of the whole page *)

Section Follows.

Variable R : world -> world -> Prop.
Hypothesis R_refl : forall w, R w w.
Hypothesis R_trans : forall w1 w2 w3, R w1 w2 -> R w2 w3 -> R w1 w3.

Lemma follows_ret {A} (a : A) : follows R (mret a).
Proof. intros w. apply R_refl. Qed.

Lemma follows_throw {A} (e : exn) : follows R (@throw A e).
Proof. intros w. apply R_refl. Qed.

Lemma follows_lift {A} (o : outcome A) : follows R (lift o).
Proof. intros w. apply R_refl. Qed.

Lemma follows_bind {A B} (m : M A) (f : A -> M B) :
  follows R m -> (forall a, follows R (f a)) -> follows R (m ≫= f).
Proof.
  intros Hm Hf w. unfold mbind, M_bind. specialize (Hm w).
  destruct (m w) as [[a|e] w1]; cbn in *; [|done].
  eapply R_trans; [exact Hm|apply Hf].
Qed.

Lemma follows_try_catch {A} (m : M A) (h : exn -> M A) :
  follows R m -> (forall e, follows R (h e)) -> follows R (try_catch m h).
Proof.
  intros Hm Hh w. unfold try_catch. specialize (Hm w).
  destruct (m w) as [[a|e] w1]; cbn in *; [done|].
  eapply R_trans; [exact Hm|apply Hh].
Qed.

End Follows.

Section PFollows.

Variable R : page -> page -> Prop.
Hypothesis R_refl : forall p, R p p.
Hypothesis R_trans : forall p1 p2 p3, R p1 p2 -> R p2 p3 -> R p1 p3.

Lemma pfollows_ret {A} (a : A) : pfollows R (mret a).
Proof. intros p. apply R_refl. Qed.

Lemma pfollows_bind {A B} (m : P A) (f : A -> P B) :
  pfollows R m -> (forall a, pfollows R (f a)) -> pfollows R (m ≫= f).
Proof.
  intros Hm Hf p. unfold mbind, P_bind. specialize (Hm p).
  destruct (m p) as [[a|e] p1]; cbn in *; [|done].
  eapply R_trans; [exact Hm|apply Hf].
Qed.

Lemma pfollows_try_catch {A} (m : P A) (h : exn -> P A) :
  pfollows R m -> (forall e, pfollows R (h e)) -> pfollows R (ptry_catch m h).
Proof.
  intros Hm Hh p. unfold ptry_catch. specialize (Hm p).
  destruct (m p) as [[a|e] p1]; cbn in *; [done|].
  eapply R_trans; [exact Hm|apply Hh].
Qed.

Lemma pfollows_try_finally {A} (m : P A) (f : P unit) :
  pfollows R m -> pfollows R f -> pfollows R (ptry_finally m f).
Proof.
  intros Hm Hf p. unfold ptry_finally. specialize (Hm p).
  destruct (m p) as [o p1]. specialize (Hf p1).
  destruct (f p1) as [[[]|e] p2]; cbn in *; by eapply R_trans.
Qed.

End PFollows.

(** What a relation on the pipeline needs from the steps that leave the
    pipeline alone. *)
Section OnPipeline.

Variable R : world -> world -> Prop.
Hypothesis R_refl : forall w, R w w.
Hypothesis R_trans : forall w1 w2 w3, R w1 w2 -> R w2 w3 -> R w1 w3.

Lemma on_pipeline_refl (p : page) : on_pipeline R p p.
Proof. apply R_refl. Qed.

Lemma on_pipeline_trans (p1 p2 p3 : page) :
  on_pipeline R p1 p2 -> on_pipeline R p2 p3 -> on_pipeline R p1 p3.
Proof. apply R_trans. Qed.

Lemma pfollows_inner {A} (m : M A) : follows R m -> pfollows (on_pipeline R) (inner m).
Proof.
  intros Hm p. unfold inner, on_pipeline. specialize (Hm (pipeline p)).
  by destruct (m (pipeline p)) as [o w1].
Qed.

Lemma pfollows_page_log (e : page_entry) : pfollows (on_pipeline R) (page_log e).
Proof. intros p. apply R_refl. Qed.

Lemma pfollows_setView (c : view_cell) (v : value) : pfollows (on_pipeline R) (setView c v).
Proof. intros p. apply R_refl. Qed.

Lemma pfollows_build_recordingData `{SaveEnv} :
  pfollows (on_pipeline R) build_recordingData.
Proof.
  intros p. unfold build_recordingData, on_pipeline.
  destruct (truthy _); [apply R_refl|].
  destruct (cells (pipeline p) AudioChunks); try apply R_refl.
  all: destruct (length_gt0 _); apply R_refl.
Qed.

End OnPipeline.

Ltac follows_step Rrefl Rtrans leaf :=
  match goal with
  | |- follows _ (mret _) => apply (follows_ret _ Rrefl)
  | |- follows _ (throw _) => apply (follows_throw _ Rrefl)
  | |- follows _ (lift _) => apply (follows_lift _ Rrefl)
  | |- follows _ (fun w => (Ret _, w)) => intros ?; apply Rrefl
  | |- follows _ (try_catch _ _) => apply (follows_try_catch _ Rtrans); [|intros ?]
  | |- follows _ (mbind _ _) =>
      first [ leaf | apply (follows_bind _ Rtrans); [|intros ?] ]
  | |- follows _ (if ?b then _ else _) => destruct b
  | |- follows _ (match ?x with _ => _ end) => destruct x
  | |- _ => leaf
  end.

Ltac pfollows_step Rrefl Rtrans leaf :=
  match goal with
  | |- pfollows _ (mret _) => apply (pfollows_ret _ (on_pipeline_refl _ Rrefl))
  | |- pfollows _ (ptry_catch _ _) =>
      apply (pfollows_try_catch _ (on_pipeline_trans _ Rtrans)); [|intros ?]
  | |- pfollows _ (ptry_finally _ _) =>
      apply (pfollows_try_finally _ (on_pipeline_trans _ Rtrans))
  | |- pfollows _ (mbind _ _) =>
      first [ leaf | apply (pfollows_bind _ (on_pipeline_trans _ Rtrans)); [|intros ?] ]
  | |- pfollows _ (page_log _) => apply (pfollows_page_log _ Rrefl)
  | |- pfollows _ (setView _ _) => apply (pfollows_setView _ Rrefl)
  | |- pfollows _ build_recordingData => apply (pfollows_build_recordingData _ Rrefl)
  | |- pfollows _ (inner _) => apply pfollows_inner
  | |- pfollows _ (if ?b then _ else _) => destruct b
  | |- pfollows _ (match ?x with _ => _ end) => destruct x
  | |- _ => leaf
  end.

Ltac unfold_setters :=
  unfold setStatus, setSelectedRecording, setRecordings, setIsEditingBeforeSave,
    setTitle, setTranscript, setSummary, setKeywords, setRecordingDuration,
    setUploadedAudioUrl, setAudioChunks, setCurrentChunkIndex,
    setShowAudioPlayer, setExecutionArn, setProcessingStatus, setErrorMessage,
    setIsRecording, setIsLoading, setCopied, setIsSidebarOpen, setRecordingStartTime.

(** *** At most one interval, whatever the user does *)

Ltac evolves_leaf :=
  match goal with
  | |- follows evolves ?m => change (respects m)
  | |- respects resetState => apply respects_resetState
  | |- respects fetchRecordings_begin => apply respects_fetchRecordings_begin
  | |- respects _ => respects_step
  end.

Ltac evolves_auto :=
  unfold_setters;
  repeat first [ pfollows_step evolves_refl evolves_trans ltac:(idtac; fail)
               | evolves_leaf ].

Lemma respects_handleDelete (net : network) : respects (handleDelete net).
Proof.
  intros w. unfold handleDelete. destruct (negb _); [apply evolves_refl|].
  refine (respects_try_catch _ _ _ _ w); [|intros ?]; evolves_auto.
Qed.

Lemma respects_handleAudioEnded (inDocument : bool) : respects (handleAudioEnded inDocument).
Proof.
  intros w. unfold handleAudioEnded.
  repeat match goal with
         | |- evolves _ (snd (match ?x with _ => _ end)) => destruct x
         | |- evolves _ (snd ((if ?x then _ else _) _)) => destruct x
         end;
    try apply evolves_refl; apply respects_setCell; discriminate.
Qed.

Lemma respects_map_detail_chunk_urls (v : value) : respects (map_detail_chunk_urls v).
Proof. unfold map_detail_chunk_urls. evolves_auto. Qed.

Lemma evolves_fetchRecording (net : network) (id : value) :
  pfollows (on_pipeline evolves) (fetchRecording net id).
Proof.
  unfold fetchRecording. evolves_auto. apply respects_map_detail_chunk_urls.
Qed.

Lemma evolves_handleSelectRecording (net : network) (recording : value) :
  pfollows (on_pipeline evolves) (handleSelectRecording net recording).
Proof. unfold handleSelectRecording. evolves_auto. apply evolves_fetchRecording. Qed.

Lemma evolves_saveRecording (net : network) :
  pfollows (on_pipeline evolves) (saveRecording net).
Proof. unfold saveRecording. evolves_auto. Qed.

Lemma evolves_cancelEdit : pfollows (on_pipeline evolves) cancelEdit.
Proof. unfold cancelEdit. evolves_auto. Qed.

Lemma evolves_perform (a : action) (p : page) :
  evolves (pipeline p) (pipeline (perform a p)).
Proof.
  destruct a; cbn [perform]; unfold pexec.
  - unfold inner. cbn. apply evolves_step.
  - apply evolves_handleSelectRecording.
  - apply (pfollows_inner evolves), respects_handleDelete.
  - apply evolves_saveRecording.
  - apply evolves_cancelEdit.
  - apply (pfollows_inner evolves), respects_setCell. discriminate.
  - apply (pfollows_inner evolves), respects_setCell. discriminate.
  - apply (pfollows_inner evolves), respects_setCell. discriminate.
  - apply (pfollows_inner evolves), respects_setCell. discriminate.
  - apply (pfollows_inner evolves), respects_handleAudioEnded.
Qed.

Lemma evolves_play (acts : list action) (p : page) :
  evolves (pipeline p) (pipeline (play acts p)).
Proof.
  revert p. induction acts as [|a acts IH]; intros p; [apply evolves_refl|].
  cbn. eapply evolves_trans; [apply evolves_perform|apply IH].
Qed.

(** X12. Whatever the user does and whatever the network answers, in any
    order, at most one polling interval is live, and it is the one whose
    handle the page holds: selecting, deleting, saving, editing and playback
    never start or leave behind an interval. *)
Theorem one_interval_on_the_whole_page (acts : list action) :
  let w := pipeline (play acts initial_page) in
  single_timer w
  /\ (forall h1 h2 tm1 tm2,
        timers w !! h1 = Some tm1 -> timers w !! h2 = Some tm2 -> h1 = h2).
Proof.
  intros w.
  assert (Hs : single_timer w).
  { apply (evolves_play acts initial_page). apply single_timer_initial. }
  split; [exact Hs|].
  intros h1 h2 tm1 tm2 H1 H2. destruct Hs as (_ & _ & Hlive).
  apply Hlive in H1, H2. congruence.
Qed.

(** *** The chunk list and the index into it *)

Lemma keeps_chunks_refl (w : world) : keeps_chunks w w.
Proof. by intros ?. Qed.

Lemma keeps_chunks_trans (w1 w2 w3 : world) :
  keeps_chunks w1 w2 -> keeps_chunks w2 w3 -> keeps_chunks w1 w3.
Proof. unfold keeps_chunks. auto. Qed.

Lemma keeps_chunks_frame (w w' : world) :
  cells w' AudioChunks = cells w AudioChunks ->
  cells w' CurrentChunkIndex = cells w CurrentChunkIndex ->
  keeps_chunks w w'.
Proof. intros Ha Hi. unfold keeps_chunks, chunks_ok. by rewrite Ha, Hi. Qed.

Lemma kc_setCell (c : cell) (v : value) :
  c <> AudioChunks -> c <> CurrentChunkIndex -> follows keeps_chunks (setCell c v).
Proof.
  intros Ha Hi w. apply keeps_chunks_frame; cbn; by rewrite insert_cell_ne.
Qed.

Lemma kc_console_log (e : console_entry) : follows keeps_chunks (console_log e).
Proof. intros w. by apply keeps_chunks_frame. Qed.

Lemma kc_fetch (net : network) (req : request) : follows keeps_chunks (fetch net req).
Proof. intros w. by apply keeps_chunks_frame. Qed.

Lemma kc_fetch_later (req : request) (p : pending) :
  follows keeps_chunks (fetch_later req p).
Proof. intros w. by apply keeps_chunks_frame. Qed.

Lemma kc_clearInterval (v : value) : follows keeps_chunks (clearInterval v).
Proof. intros w. unfold clearInterval. destruct v; by apply keeps_chunks_frame. Qed.

Lemma kc_setPollingInterval (v : value) : follows keeps_chunks (setPollingInterval v).
Proof.
  intros w. unfold setPollingInterval, polling_cleanup, clearInterval.
  destruct (same_handle _ _); [apply keeps_chunks_refl|].
  munfold. cbn. destruct (truthy _); [destruct (cells w PollingInterval)|];
    apply keeps_chunks_frame; cbn; by rewrite ?insert_cell_ne.
Qed.

Lemma kc_unmount : follows keeps_chunks unmount.
Proof.
  intros w. unfold unmount, polling_cleanup, clearInterval.
  destruct (truthy _); [destruct (cells w PollingInterval)|]; by apply keeps_chunks_frame.
Qed.

Lemma kc_startPolling (executionArn : value) : follows keeps_chunks (startPolling executionArn).
Proof.
  unfold startPolling.
  apply (follows_bind _ keeps_chunks_trans); [intros w; by apply keeps_chunks_frame|].
  intros interval. apply (follows_bind _ keeps_chunks_trans); [apply kc_setPollingInterval|].
  intros _. apply (follows_ret _ keeps_chunks_refl).
Qed.

Lemma chunks_ok_fresh (items : list value) (w : world) :
  Forall (fun v => exists key, v = chunk_url key) items ->
  cells w AudioChunks = VArr items ->
  cells w CurrentChunkIndex = VNum 0 ->
  chunks_ok w.
Proof. intros Hitems Ha Hi. exists items, 0%Z. repeat split; auto. lia. Qed.

(** The two updates that replace the chunk list come together. *)
Lemma kc_pair {A} (items : list value) (k : M A) :
  Forall (fun v => exists key, v = chunk_url key) items ->
  follows keeps_chunks k ->
  follows keeps_chunks
    (setCell AudioChunks (VArr items);; setCell CurrentChunkIndex (VNum 0);; k).
Proof.
  intros Hitems Hk w _. munfold. cbn. apply Hk.
  apply (chunks_ok_fresh items); [done|cbn; cells_solve..].
Qed.

Lemma kc_chunk_urls {A} (keys : list value) (f : list value -> M A) :
  (forall urls, Forall (fun v => exists key : string, v = chunk_url key) urls ->
                follows keeps_chunks (f urls)) ->
  follows keeps_chunks (lift (chunk_urls keys) ≫= f).
Proof.
  intros Hf w. unfold mbind, M_bind, lift. cbn.
  destruct (chunk_urls keys) as [urls|e] eqn:Hurls; [|apply keeps_chunks_refl].
  apply Hf. by apply chunk_urls_Forall in Hurls.
Qed.

Lemma kc_map_chunk_urls {A} (v : value) (f : value -> M A) :
  (forall urls, Forall (fun v => exists key : string, v = chunk_url key) urls ->
                follows keeps_chunks (f (VArr urls))) ->
  follows keeps_chunks (map_chunk_urls v ≫= f).
Proof.
  intros Hf. unfold map_chunk_urls.
  destruct v; try (intros w; apply keeps_chunks_refl).
  intros w. unfold mbind, M_bind, lift, mret, M_ret. cbn.
  destruct (chunk_urls items) as [urls|e] eqn:Hurls; [|apply keeps_chunks_refl].
  apply Hf. by apply chunk_urls_Forall in Hurls.
Qed.

Ltac kc_leaf :=
  match goal with
  | |- follows _ (mbind _ (map_chunk_urls _)) => apply kc_map_chunk_urls; intros ? ?
  | |- follows _ (mbind _ (lift (chunk_urls _))) => apply kc_chunk_urls; intros ? ?
  | |- follows _ (mbind _ (setCell AudioChunks (VArr _))) =>
      apply kc_pair; [first [assumption | apply Forall_nil_2]|]
  | |- follows _ (setCell _ _) => apply kc_setCell; discriminate
  | |- follows _ (console_log _) => apply kc_console_log
  | |- follows _ (fetch _ _) => apply kc_fetch
  | |- follows _ (fetch_later _ _) => apply kc_fetch_later
  | |- follows _ (clearInterval _) => apply kc_clearInterval
  | |- follows _ (setPollingInterval _) => apply kc_setPollingInterval
  | |- follows _ (startPolling _) => apply kc_startPolling
  end.

Ltac kc_auto :=
  unfold_setters;
  repeat follows_step keeps_chunks_refl keeps_chunks_trans ltac:(idtac; kc_leaf).

Lemma kc_fetchRecordings_begin : follows keeps_chunks fetchRecordings_begin.
Proof. unfold fetchRecordings_begin. kc_auto. Qed.

Lemma kc_fetchRecordings_resume (r : outcome response) :
  follows keeps_chunks (fetchRecordings_resume r).
Proof. unfold fetchRecordings_resume, sort_recordings. kc_auto. Qed.

Lemma kc_resetState : follows keeps_chunks resetState.
Proof. unfold resetState. kc_auto. Qed.

Lemma kc_startRecording (granted : bool) : follows keeps_chunks (startRecording granted).
Proof. unfold startRecording, resetState. kc_auto. Qed.

Lemma kc_uploadChunk (net : network) (n i : nat) (chunk : Blob) :
  follows keeps_chunks (uploadChunk net n i chunk).
Proof. unfold uploadChunk, extractPresigned. kc_auto. Qed.

Lemma kc_uploadChunks (net : network) (chunks : list Blob) :
  follows keeps_chunks (uploadChunks net chunks).
Proof.
  unfold uploadChunks. generalize (length chunks) 0 (@nil value).
  induction chunks as [|chunk rest IH]; intros n i acc; cbn [uploadChunks_from].
  - apply (follows_ret _ keeps_chunks_refl).
  - apply (follows_bind _ keeps_chunks_trans); [apply kc_uploadChunk|].
    intros key. apply IH.
Qed.

Lemma kc_publish_result (resultData : value) : follows keeps_chunks (publish_result resultData).
Proof. unfold publish_result, fetchRecordings_begin. kc_auto. Qed.

Lemma kc_tick_resume (interval : Z) (r : outcome response) :
  follows keeps_chunks (tick_resume interval r).
Proof.
  unfold tick_resume, decode_nested. kc_auto; apply kc_publish_result.
Qed.

Lemma kc_tick_fire (interval : Z) : follows keeps_chunks (tick_fire interval).
Proof.
  intros w. unfold tick_fire. destruct (timers w !! interval);
    [|apply keeps_chunks_refl].
  destruct (ToString _); [apply kc_fetch_later|apply kc_tick_resume].
Qed.

Lemma kc_dispatch_response (res : response) : follows keeps_chunks (dispatch_response res).
Proof. unfold dispatch_response, fetchRecordings_begin. kc_auto. Qed.

Lemma kc_processAudio (net : network) (audioBlob : Blob) :
  follows keeps_chunks (processAudio net audioBlob).
Proof.
  unfold processAudio, createChunks. kc_auto;
    first [apply kc_uploadChunks | apply kc_dispatch_response].
Qed.

Lemma kc_step (ev : event) (w : world) : keeps_chunks w (step ev w).
Proof.
  destruct ev as [granted|net blob|interval|i r| |]; cbn [step]; unfold exec.
  - apply kc_startRecording.
  - apply kc_processAudio.
  - apply kc_tick_fire.
  - destruct (inflight w !! i) as [[interval arn|]|]; [| |apply keeps_chunks_refl].
    + eapply keeps_chunks_trans; [|apply kc_tick_resume]. by apply keeps_chunks_frame.
    + eapply keeps_chunks_trans; [|apply kc_fetchRecordings_resume].
      by apply keeps_chunks_frame.
  - apply kc_fetchRecordings_begin.
  - apply kc_unmount.
Qed.

Lemma kc_handleDelete (net : network) : follows keeps_chunks (handleDelete net).
Proof.
  intros w. unfold handleDelete. destruct (negb _); [apply keeps_chunks_refl|].
  refine (follows_try_catch _ keeps_chunks_trans _ _ _ _ w); [|intros ?].
  - kc_auto; first [apply kc_resetState | apply kc_fetchRecordings_begin].
  - kc_auto.
Qed.

Lemma kc_handleAudioEnded (inDocument : bool) :
  follows keeps_chunks (handleAudioEnded inDocument).
Proof.
  intros w (items & i & Ha & Hitems & Hi & Hge & Hlt). unfold handleAudioEnded.
  rewrite Hi, Ha. destruct (Z.ltb_spec i (Z.of_nat (length items) - 1)).
  - destruct inDocument; [|by exists items, i].
    exists items, (i + 1)%Z. cbn. rewrite insert_cell_eq, insert_cell_ne; [|done].
    repeat split; auto; lia.
  - exists items, 0%Z. cbn. rewrite insert_cell_eq, insert_cell_ne; [|done].
    repeat split; auto; lia.
Qed.

Lemma pkc_pair {A} (items : list value) (k : P A) :
  Forall (fun v => exists key, v = chunk_url key) items ->
  pfollows (on_pipeline keeps_chunks) k ->
  pfollows (on_pipeline keeps_chunks)
    (inner (setCell AudioChunks (VArr items));;
     inner (setCell CurrentChunkIndex (VNum 0));; k).
Proof.
  intros Hitems Hk p _. unfold inner, setCell, mbind, P_bind. cbn. apply Hk.
  apply (chunks_ok_fresh items); [done|cbn; cells_solve..].
Qed.

Lemma pkc_map_detail_chunk_urls {A} (v : value) (f : value -> P A) :
  (forall urls, Forall (fun v => exists key : string, v = chunk_url key) urls ->
                pfollows (on_pipeline keeps_chunks) (f (VArr urls))) ->
  pfollows (on_pipeline keeps_chunks) (inner (map_detail_chunk_urls v) ≫= f).
Proof.
  intros Hf. unfold map_detail_chunk_urls.
  destruct v; try (intros p; apply keeps_chunks_refl).
  intros p. unfold inner, mbind, P_bind, M_bind, lift, mret, M_ret. cbn.
  destruct p as [w vw c].
  destruct (chunk_urls items) as [urls|e] eqn:Hurls; [|apply keeps_chunks_refl].
  apply chunk_urls_Forall in Hurls. apply (Hf urls Hurls (mkPage w vw c)).
Qed.

Ltac pkc_leaf :=
  match goal with
  | |- pfollows _ (mbind _ (inner (map_detail_chunk_urls _))) =>
      apply pkc_map_detail_chunk_urls; intros ? ?
  | |- pfollows _ (mbind _ (inner (setCell AudioChunks (VArr _)))) =>
      apply pkc_pair; [first [assumption | apply Forall_nil_2]|]
  | |- follows _ _ => follows_step keeps_chunks_refl keeps_chunks_trans ltac:(idtac; kc_leaf)
  end.

Ltac pkc_auto :=
  unfold_setters;
  repeat pfollows_step keeps_chunks_refl keeps_chunks_trans ltac:(idtac; pkc_leaf).

Lemma kc_fetchRecording (net : network) (id : value) :
  pfollows (on_pipeline keeps_chunks) (fetchRecording net id).
Proof. unfold fetchRecording. pkc_auto. Qed.

Lemma kc_handleSelectRecording (net : network) (recording : value) :
  pfollows (on_pipeline keeps_chunks) (handleSelectRecording net recording).
Proof. unfold handleSelectRecording. pkc_auto. apply kc_fetchRecording. Qed.

Lemma kc_saveRecording (net : network) :
  pfollows (on_pipeline keeps_chunks) (saveRecording net).
Proof. unfold saveRecording. pkc_auto. apply kc_fetchRecordings_begin. Qed.

Lemma kc_cancelEdit : pfollows (on_pipeline keeps_chunks) cancelEdit.
Proof. unfold cancelEdit. pkc_auto. Qed.

Lemma kc_perform (a : action) (p : page) :
  keeps_chunks (pipeline p) (pipeline (perform a p)).
Proof.
  destruct a; cbn [perform]; unfold pexec.
  - unfold inner. cbn. apply kc_step.
  - apply kc_handleSelectRecording.
  - apply (pfollows_inner keeps_chunks), kc_handleDelete.
  - apply kc_saveRecording.
  - apply kc_cancelEdit.
  - apply (pfollows_inner keeps_chunks), kc_setCell; discriminate.
  - apply (pfollows_inner keeps_chunks), kc_setCell; discriminate.
  - apply (pfollows_inner keeps_chunks), kc_setCell; discriminate.
  - apply (pfollows_inner keeps_chunks), kc_setCell; discriminate.
  - apply (pfollows_inner keeps_chunks), kc_handleAudioEnded.
Qed.

Lemma chunks_ok_initial : chunks_ok initial_world.
Proof. by apply (chunks_ok_fresh []). Qed.

Lemma chunks_ok_play (acts : list action) (p : page) :
  chunks_ok (pipeline p) -> chunks_ok (pipeline (play acts p)).
Proof.
  revert p. induction acts as [|a acts IH]; intros p Hp; [done|].
  cbn. apply IH. by apply kc_perform.
Qed.

(** X13. In every state the page can reach, whatever the user does and the
    network answers, the chunk list is an array of chunk URLs and the index of
    the chunk being played points into it (or is 0 when there is none). *)
Theorem chunk_index_in_bounds (acts : list action) :
  chunks_ok (pipeline (play acts initial_page)).
Proof. apply chunks_ok_play, chunks_ok_initial. Qed.

Lemma truthy_chunk_url (key : string) : truthy (chunk_url key) = true.
Proof. done. Qed.

Lemma AudioPlayer_chunks_ok (w : world) :
  chunks_ok w ->
  (AudioPlayer w = NotRendered <-> truthy (cells w ShowAudioPlayer) = false)
  /\ match AudioPlayer w with
     | NotRendered => True
     | NoAudioData =>
         cells w AudioChunks = VArr []
         /\ truthy (cells w UploadedAudioUrl) = false
         /\ truthy (selected_audioUrl w) = false
     | AudioElement src =>
         truthy src = true
         /\ ((exists key, src = chunk_url key)
             \/ (cells w AudioChunks = VArr []
                 /\ src = js_or (cells w UploadedAudioUrl) (selected_audioUrl w)))
     end.
Proof.
  intros (items & i & Ha & Hitems & Hi & Hge & Hlt). unfold AudioPlayer.
  destruct (truthy (cells w ShowAudioPlayer)); cbn [negb]; [|by repeat split].
  rewrite Ha, Hi. destruct items as [|x items'].
  - destruct (truthy (js_or _ _)) eqn:Hf; [split; [by split|by auto]|].
    unfold js_or in Hf. split; [by split|]. split; [done|].
    destruct (truthy (cells w UploadedAudioUrl)) eqn:Hu; [congruence|by split].
  - destruct (Z.ltb_spec i 0); [lia|]. split; [by split|].
    assert (Hin : (Z.to_nat i < length (x :: items'))%nat).
    { destruct Hlt as [Hlt| ->]; [cbn [length] in *; lia|cbn; lia]. }
    apply lookup_lt_is_Some in Hin as [src Hsrc]. rewrite Hsrc. cbn [default].
    rewrite Forall_forall in Hitems.
    destruct (Hitems src) as [key ->]; [by eapply list_elem_of_lookup_2|].
    split; [apply truthy_chunk_url|left; by exists key].
Qed.

(** X14. In every state the page can reach, the audio player is hidden exactly
    when [showAudioPlayer] is false: it renders nothing when the flag is
    false, and renders an audio element or the notice when the flag is true.
    An audio element it renders always has a source, which is the URL of a
    chunk or, without chunks, the uploaded or the selected recording's audio
    URL; and the notice of missing audio is shown only when there is none of
    these. *)
Theorem player_source_is_set (acts : list action) :
  let w := pipeline (play acts initial_page) in
  (AudioPlayer w = NotRendered <-> truthy (cells w ShowAudioPlayer) = false)
  /\ match AudioPlayer w with
     | NotRendered => True
     | NoAudioData =>
         cells w AudioChunks = VArr []
         /\ truthy (cells w UploadedAudioUrl) = false
         /\ truthy (selected_audioUrl w) = false
     | AudioElement src =>
         truthy src = true
         /\ ((exists key, src = chunk_url key)
             \/ (cells w AudioChunks = VArr []
                 /\ src = js_or (cells w UploadedAudioUrl) (selected_audioUrl w)))
     end.
Proof. intros w. apply AudioPlayer_chunks_ok, chunks_ok_play, chunks_ok_initial. Qed.

(** *** Playing the chunks in turn *)

Lemma handleAudioEnded_next (w : world) (items : list value) (i : Z) :
  cells w AudioChunks = VArr items ->
  cells w CurrentChunkIndex = VNum i ->
  (0 <= i < Z.of_nat (length items))%Z ->
  let w' := exec (handleAudioEnded true) w in
  cells w' CurrentChunkIndex = VNum ((i + 1) mod Z.of_nat (length items))
  /\ (forall c, c <> CurrentChunkIndex -> cells w' c = cells w c)
  /\ requests w' = requests w /\ timers w' = timers w.
Proof.
  intros Ha Hi Hlt w'. subst w'. unfold exec, handleAudioEnded. rewrite Hi, Ha.
  destruct (Z.ltb_spec i (Z.of_nat (length items) - 1)); cbn.
  - rewrite insert_cell_eq, Z.mod_small by lia.
    repeat split; auto. intros c Hc. by rewrite insert_cell_ne.
  - replace (i + 1)%Z with (Z.of_nat (length items)) by lia.
    rewrite insert_cell_eq, Z.mod_same by lia.
    repeat split; auto. intros c Hc. by rewrite insert_cell_ne.
Qed.

(** X15. Playback goes through the chunks in turn and starts over after the
    last one: from chunk [i] of [n], after [k] chunks have ended (the audio
    element being in the document) the current chunk is [(i + k) mod n]; no
    other cell changes, and nothing is requested. *)
Theorem audio_ended_cycles (w : world) (items : list value) (i : Z) (k : nat) :
  cells w AudioChunks = VArr items ->
  cells w CurrentChunkIndex = VNum i ->
  (0 <= i < Z.of_nat (length items))%Z ->
  let w' := Nat.iter k (exec (handleAudioEnded true)) w in
  cells w' CurrentChunkIndex = VNum ((i + Z.of_nat k) mod Z.of_nat (length items))
  /\ (forall c, c <> CurrentChunkIndex -> cells w' c = cells w c)
  /\ requests w' = requests w /\ timers w' = timers w.
Proof.
  intros Ha Hi Hlt. induction k as [|k IH]; cbn zeta.
  - cbn [Nat.iter nat_rect]. rewrite Z.add_0_r, Z.mod_small by lia. by rewrite Hi.
  - rewrite !Nat.iter_succ. destruct IH as (Hidx & Hrest & Hreq & Htm).
    set (wk := Nat.iter k (exec (handleAudioEnded true)) w) in *.
    destruct (handleAudioEnded_next wk items
                ((i + Z.of_nat k) mod Z.of_nat (length items)))
      as (Hidx' & Hrest' & Hreq' & Htm').
    + rewrite Hrest by done. exact Ha.
    + exact Hidx.
    + apply Z.mod_pos_bound. lia.
    + rewrite Hidx', Hreq', Htm'. repeat split; auto.
      * f_equal. rewrite Z.add_mod_idemp_l by lia. f_equal. lia.
      * intros c Hc. rewrite Hrest' by done. by apply Hrest.
Qed.

(** X16. When the audio element has left the document, an ended chunk other
    than the last one leaves the page as it is; the last one still resets the
    index to the first chunk. *)
Theorem audio_ended_outside_document (w : world) (items : list value) (i : Z) :
  cells w AudioChunks = VArr items ->
  cells w CurrentChunkIndex = VNum i ->
  let w' := exec (handleAudioEnded false) w in
  ((i < Z.of_nat (length items) - 1)%Z -> w' = w)
  /\ ((Z.of_nat (length items) - 1 <= i)%Z -> cells w' CurrentChunkIndex = VNum 0).
Proof.
  intros Ha Hi w'. subst w'. unfold exec, handleAudioEnded. rewrite Hi, Ha.
  destruct (Z.ltb_spec i (Z.of_nat (length items) - 1)); split; intros; try lia; done.
Qed.

(** *** What is sent when saving *)

Lemma keeps_start_unset_refl (p : page) : keeps_start_unset p p.
Proof. by intros ?. Qed.

Lemma keeps_start_unset_trans (p1 p2 p3 : page) :
  keeps_start_unset p1 p2 -> keeps_start_unset p2 p3 -> keeps_start_unset p1 p3.
Proof. unfold keeps_start_unset. auto. Qed.

Lemma ksu_inner {A} (m : M A) : pfollows keeps_start_unset (inner m).
Proof. intros p. unfold inner, keeps_start_unset. by destruct (m (pipeline p)). Qed.

Lemma ksu_page_log (e : page_entry) : pfollows keeps_start_unset (page_log e).
Proof. intros p. by unfold keeps_start_unset. Qed.

Lemma ksu_setView (c : view_cell) (v : value) :
  c <> RecordingStartTime \/ v = VNull -> pfollows keeps_start_unset (setView c v).
Proof.
  intros Hc p Hp. cbn. destruct Hc as [Hc| ->].
  - by rewrite fn_lookup_insert_ne.
  - destruct (decide (c = RecordingStartTime)) as [->|Hc].
    + by rewrite fn_lookup_insert.
    + by rewrite fn_lookup_insert_ne.
Qed.

Lemma ksu_build_recordingData : pfollows keeps_start_unset build_recordingData.
Proof.
  intros p. unfold build_recordingData, keeps_start_unset.
  destruct (truthy _); [done|].
  destruct (cells (pipeline p) AudioChunks); try done.
  all: by destruct (length_gt0 _).
Qed.

Ltac ksu_step :=
  match goal with
  | |- pfollows _ (mret _) => apply (pfollows_ret _ keeps_start_unset_refl)
  | |- pfollows _ (ptry_catch _ _) =>
      apply (pfollows_try_catch _ keeps_start_unset_trans); [|intros ?]
  | |- pfollows _ (ptry_finally _ _) =>
      apply (pfollows_try_finally _ keeps_start_unset_trans)
  | |- pfollows _ (mbind _ _) =>
      apply (pfollows_bind _ keeps_start_unset_trans); [|intros ?]
  | |- pfollows _ (page_log _) => apply ksu_page_log
  | |- pfollows _ (setView _ _) => apply ksu_setView; first [by left | by right]
  | |- pfollows _ build_recordingData => apply ksu_build_recordingData
  | |- pfollows _ (inner _) => apply ksu_inner
  | |- pfollows _ (if ?b then _ else _) => destruct b
  | |- pfollows _ (match ?x with _ => _ end) => destruct x
  end.

Ltac ksu_auto := unfold_setters; repeat ksu_step.

Lemma ksu_fetchRecording (net : network) (id : value) :
  pfollows keeps_start_unset (fetchRecording net id).
Proof. unfold fetchRecording. ksu_auto. Qed.

Lemma ksu_handleSelectRecording (net : network) (recording : value) :
  pfollows keeps_start_unset (handleSelectRecording net recording).
Proof. unfold handleSelectRecording. ksu_auto. apply ksu_fetchRecording. Qed.

Lemma ksu_saveRecording (net : network) : pfollows keeps_start_unset (saveRecording net).
Proof. unfold saveRecording. ksu_auto. Qed.

Lemma ksu_cancelEdit : pfollows keeps_start_unset cancelEdit.
Proof. unfold cancelEdit. ksu_auto. Qed.

Lemma ksu_perform (a : action) (p : page) : keeps_start_unset p (perform a p).
Proof.
  destruct a; cbn [perform]; unfold pexec.
  - apply ksu_inner.
  - apply ksu_handleSelectRecording.
  - apply ksu_inner.
  - apply ksu_saveRecording.
  - apply ksu_cancelEdit.
  - apply ksu_inner.
  - apply ksu_inner.
  - apply ksu_inner.
  - apply ksu_inner.
  - apply ksu_inner.
Qed.

Lemma start_unset_play (acts : list action) (p : page) :
  view p RecordingStartTime = VNull -> view (play acts p) RecordingStartTime = VNull.
Proof.
  revert p. induction acts as [|a acts IH]; intros p Hp; [done|].
  cbn. apply IH. by apply ksu_perform.
Qed.

(** X17. In every state the page can reach, saving builds its payload without
    failing; the page never stores a session id or the time the recording
    started, so the payload's id is a fresh identifier and its start time is
    the time of saving; and the chunk URLs are sent only when there are
    some. *)
Theorem save_payload_always_built (acts : list action) :
  let p := play acts initial_page in
  let n := length (requests (pipeline p)) in
  view p RecordingStartTime = VNull
  /\ exists fields,
       build_recordingData p = (Ret (VObj fields), p)
       /\ lookup_field "id" fields = VStr (uuid n)
       /\ lookup_field "start_time" fields
          = VStr (first_segment " " (start_toTimeString n))
       /\ lookup_field "user_id" fields = VStr USER_ID
       /\ (lookup_field "audioChunksUrls" fields = VUndef
           /\ cells (pipeline p) AudioChunks = VArr []
           \/ lookup_field "audioChunksUrls" fields = cells (pipeline p) AudioChunks
              /\ exists x items, cells (pipeline p) AudioChunks = VArr (x :: items)).
Proof.
  intros p n.
  assert (Hstart : view p RecordingStartTime = VNull) by by apply start_unset_play.
  split; [exact Hstart|].
  destruct (chunks_ok_play acts initial_page chunks_ok_initial)
    as (items & i & Ha & _).
  fold p in Ha. unfold build_recordingData. rewrite Hstart, Ha. cbn [truthy].
  eexists. split; [reflexivity|]. cbn.
  repeat split. destruct items as [|x items]; cbn; [by left|right]. split; [done|eauto].
Qed.

(** *** Uploading and processing *)

Lemma uploadChunks_from_length (net : network) (n : nat) (chunks : list Blob) :
  forall (i : nat) (acc : list value) (w : world) (keys : list value),
    fst (uploadChunks_from net n i acc chunks w) = Ret keys ->
    length keys = (length acc + length chunks)%nat.
Proof.
  induction chunks as [|chunk rest IH]; intros i acc w keys; cbn [uploadChunks_from].
  - unfold mret, M_ret. cbn. intros [= <-]. cbn. lia.
  - unfold mbind, M_bind. destruct (uploadChunk net n i chunk w) as [[key|e] w1]; [|done].
    intros Hkeys. apply IH in Hkeys. rewrite length_app in Hkeys. cbn in *. lia.
Qed.

(** X18. Whatever the network answers, when [uploadChunks] returns it returns
    one key for each chunk; so for the chunks [createChunks] makes of a blob
    the list of keys is never empty, and the check for an empty upload in
    [processAudio] cannot fire. *)
Theorem uploadChunks_one_key_per_chunk
    (net : network) (audioBlob : Blob) (chunks : list Blob) (keys : list value)
    (w w1 : world) :
  fst (uploadChunks net chunks w) = Ret keys ->
  length keys = length chunks
  /\ (fst (createChunks audioBlob w1) = Ret chunks -> Nat.eqb (length keys) 0 = false).
Proof.
  intros Hkeys. apply uploadChunks_from_length in Hkeys. cbn in Hkeys.
  split; [exact Hkeys|]. intros Hchunks. rewrite Hkeys.
  unfold createChunks in Hchunks. munfold.
  destruct (_ <=? _)%Z; cbn in Hchunks; by injection Hchunks as <-.
Qed.

Lemma same_poll_refl (w : world) : same_poll w w.
Proof. by unfold same_poll. Qed.

Lemma same_poll_trans (w1 w2 w3 : world) :
  same_poll w1 w2 -> same_poll w2 w3 -> same_poll w1 w3.
Proof. unfold same_poll. intros (-> & -> & ->) (-> & -> & ->). done. Qed.

Lemma sp_setCell (c : cell) (v : value) :
  c <> PollingInterval -> follows same_poll (setCell c v).
Proof. intros Hc w. unfold same_poll. cbn. by rewrite insert_cell_ne. Qed.

Lemma sp_console_log (e : console_entry) : follows same_poll (console_log e).
Proof. by intros w. Qed.

Lemma sp_fetch (net : network) (req : request) : follows same_poll (fetch net req).
Proof. by intros w. Qed.

Lemma sp_fetch_later (req : request) (p : pending) : follows same_poll (fetch_later req p).
Proof. by intros w. Qed.

Ltac sp_leaf :=
  match goal with
  | |- follows _ (setCell _ _) => apply sp_setCell; discriminate
  | |- follows _ (console_log _) => apply sp_console_log
  | |- follows _ (fetch _ _) => apply sp_fetch
  | |- follows _ (fetch_later _ _) => apply sp_fetch_later
  end.

Ltac sp_auto :=
  unfold_setters;
  repeat follows_step same_poll_refl same_poll_trans ltac:(idtac; sp_leaf).

Lemma sp_uploadChunk (net : network) (n i : nat) (chunk : Blob) :
  follows same_poll (uploadChunk net n i chunk).
Proof. unfold uploadChunk, extractPresigned. sp_auto. Qed.

Lemma sp_uploadChunks (net : network) (chunks : list Blob) :
  follows same_poll (uploadChunks net chunks).
Proof.
  unfold uploadChunks. generalize (length chunks) 0 (@nil value).
  induction chunks as [|chunk rest IH]; intros n i acc; cbn [uploadChunks_from].
  - apply (follows_ret _ same_poll_refl).
  - apply (follows_bind _ same_poll_trans); [apply sp_uploadChunk|].
    intros key. apply IH.
Qed.

Lemma sp_fetchRecordings_begin : follows same_poll fetchRecordings_begin.
Proof. unfold fetchRecordings_begin. sp_auto. Qed.

Lemma quiet_follows {A} (m : M A) : follows same_poll m -> throws_quietly m.
Proof. intros Hm w e _. apply Hm. Qed.

Lemma quiet_bind {A B} (m : M A) (f : A -> M B) :
  follows same_poll m -> (forall a, throws_quietly (f a)) -> throws_quietly (m ≫= f).
Proof.
  intros Hm Hf w e. unfold mbind, M_bind. specialize (Hm w).
  destruct (m w) as [[a|e'] w1]; cbn in *; [|done].
  intros He. eapply same_poll_trans; [exact Hm|by eapply Hf].
Qed.

Lemma quiet_returns {A} (m : M A) :
  (forall w, exists a, fst (m w) = Ret a) -> throws_quietly m.
Proof. intros Hm w e He. destruct (Hm w) as [a Ha]. congruence. Qed.

Lemma setPollingInterval_returns (v : value) (w : world) :
  fst (setPollingInterval v w) = Ret tt.
Proof.
  unfold setPollingInterval, polling_cleanup, clearInterval. munfold. cbn.
  destruct (same_handle _ _); [done|].
  destruct (truthy _); [|done]. by destruct (cells w PollingInterval).
Qed.

Lemma startPolling_returns (executionArn : value) (w : world) :
  exists interval, fst (startPolling executionArn w) = Ret interval.
Proof.
  unfold startPolling, setInterval. munfold. cbn.
  match goal with
  | |- context [setPollingInterval ?v ?w1] =>
      pose proof (setPollingInterval_returns v w1) as Hret;
      destruct (setPollingInterval v w1) as [o w2]
  end.
  cbn in Hret. subst o. by eexists.
Qed.

Lemma quiet_dispatch_response (res : response) : throws_quietly (dispatch_response res).
Proof.
  unfold dispatch_response.
  apply quiet_bind; [sp_auto|]. intros _.
  apply quiet_bind; [sp_auto|]. intros result.
  apply quiet_bind; [sp_auto|]. intros _.
  apply quiet_bind; [sp_auto|]. intros executionArn.
  destruct (truthy executionArn).
  - apply quiet_returns. intros w. munfold. cbn.
    match goal with
    | |- context [startPolling ?v ?w1] =>
        destruct (startPolling_returns v w1) as [interval Hret];
        destruct (startPolling v w1) as [o w2]
    end.
    cbn in Hret. subst o. by eexists.
  - apply quiet_follows. unfold fetchRecordings_begin. sp_auto.
Qed.

(** X19. When [processAudio] fails, at whatever step, the error is logged and
    shown in the status line, the progress message is cleared, and no poll has
    been started: the intervals and the stored handle are as before. *)
Theorem processAudio_failure_starts_no_poll
    (net : network) (audioBlob : Blob) (e : exn) (w : world) :
  fst (processAudio net audioBlob w) = Throw e ->
  let w' := exec (processAudio net audioBlob) w in
  cells w' Status = VStr ("音声処理に失敗しました: " +:+ message e)
  /\ cells w' ProcessingStatus = VNull
  /\ last (console w') = Some (ErrProcessing e)
  /\ timers w' = timers w
  /\ cells w' PollingInterval = cells w PollingInterval.
Proof.
  intros He w'. subst w'. unfold exec. revert He. unfold processAudio.
  match goal with
  | |- context [try_catch ?body ?h] =>
      assert (Hq : throws_quietly body); [|generalize Hq; generalize body]
  end.
  { apply quiet_bind; [sp_auto|]. intros _.
    apply quiet_bind; [sp_auto|]. intros _.
    apply quiet_bind; [unfold createChunks; sp_auto|]. intros chunks.
    apply quiet_bind; [sp_auto|]. intros _.
    apply quiet_bind; [apply sp_uploadChunks|]. intros chunkKeys.
    apply quiet_bind; [sp_auto|]. intros _.
    apply quiet_bind; [sp_auto|]. intros _.
    apply quiet_bind; [sp_auto|]. intros chunkUrls.
    apply quiet_bind; [sp_auto|]. intros _.
    apply quiet_bind; [sp_auto|]. intros _.
    apply quiet_bind; [sp_auto|]. intros _.
    apply quiet_bind; [sp_auto|]. intros _.
    apply quiet_bind; [sp_auto|]. intros _.
    apply quiet_bind; [sp_auto|]. intros response.
    apply quiet_dispatch_response. }
  intros body Hbody. unfold try_catch. specialize (Hbody w).
  destruct (body w) as [[a|e'] w1]; [done|].
  munfold. cbn. intros [= ->]. destruct (Hbody e eq_refl) as (Ht & _ & Hc).
  cbn in Ht, Hc. rewrite last_snoc. repeat split; cells_solve.
Qed.

(** X20. A poll tick whose answer decodes to an object whose status is neither
    completed nor failed, whatever the HTTP status, keeps the interval running
    and requests nothing.  Without a percentage (absent, zero or otherwise
    falsy) only the progress message changes, to the message of the answer or
    the default.  With a percentage that has a text only the progress message
    changes, to that text between the brackets and the percent sign (a number
    is printed as JavaScript prints it, in decimal while it is a safe
    integer).  With a percentage that has no text the tick ends in its catch:
    the status line reports that the status could not be fetched and the
    progress message is cleared, nothing else changes. *)
Theorem tick_in_progress_only_updates_message
    (interval : Z) (res : response) (data : list (string * value)) (w : world) :
  resp_json res = Ret (VObj data) ->
  strict_eq_str (lookup_field "status" data) "completed" = false ->
  strict_eq_str (lookup_field "status" data) "failed" = false ->
  let percentComplete := lookup_field "percentComplete" data in
  let w' := exec (tick_resume interval (Ret res)) w in
  (if truthy percentComplete then
     match ToString percentComplete with
     | Ret percentText =>
         cells w' ProcessingStatus = VStr ("処理中... (" +:+ percentText +:+ "%)")
         /\ (forall c, c <> ProcessingStatus -> cells w' c = cells w c)
     | Throw _ =>
         cells w' Status = VStr msg_status_fetch_failed
         /\ cells w' ProcessingStatus = VNull
         /\ (forall c, c <> ProcessingStatus -> c <> Status -> cells w' c = cells w c)
     end
   else
     cells w' ProcessingStatus = js_or (lookup_field "message" data) (VStr "処理中...")
     /\ (forall c, c <> ProcessingStatus -> cells w' c = cells w c))
  /\ (forall n, percentComplete = VNum n -> n <> 0%Z ->
      (Z.abs n <= MAX_SAFE_INTEGER)%Z ->
      cells w' ProcessingStatus = VStr ("処理中... (" +:+ pretty n +:+ "%)"))
  /\ timers w' = timers w
  /\ requests w' = requests w
  /\ inflight w' = inflight w.
Proof.
  intros Hjson Hc Hf percentComplete w'. subst percentComplete w'. wopen w.
  unfold tick_resume. prun. rewrite Hjson. prun. cbn [get]. rewrite Hc, Hf. prun.
  split; [|split].
  - destruct (truthy (lookup_field "percentComplete" data)); prun.
    + destruct (ToString _); prun;
        (repeat split; cells_solve; intros c Hne; intros; by rewrite !insert_cell_ne).
    + repeat split; cells_solve; intros c Hne; by rewrite !insert_cell_ne.
  - intros n -> Hn Hsafe. cbn [truthy ToString]. unfold Number_toString.
    destruct (Z.eqb_spec n 0); [done|]. cbn [negb].
    destruct (Z.leb_spec (Z.abs n) MAX_SAFE_INTEGER); [|lia]. prun. cells_solve.
  - destruct (truthy (lookup_field "percentComplete" data)); prun;
      [destruct (ToString _); prun|]; repeat split.
Qed.

(** X21. When the microphone is refused, [startRecording] has already
    discarded the previous result: the selection, the four text fields, the
    chunks and the execution id are reset, the failure is shown in the status
    line, the page does not enter the recording state, and nothing is
    requested. *)
Theorem startRecording_refused_still_resets (w : world) :
  let w' := exec (startRecording false) w in
  cells w' Status = VStr "録音の開始に失敗しました"
  /\ cells w' IsRecording = cells w IsRecording
  /\ cells w' SelectedRecording = VNull
  /\ cells w' Title = VStr "" /\ cells w' Transcript = VStr ""
  /\ cells w' Summary = VStr "" /\ cells w' Keywords = VArr []
  /\ cells w' AudioChunks = VArr [] /\ cells w' CurrentChunkIndex = VNum 0
  /\ cells w' ExecutionArn = VNull
  /\ cells w' Recordings = cells w Recordings
  /\ requests w' = requests w
  /\ timers w' = timers w.
Proof.
  intros w'. subst w'. wopen w. unfold startRecording, resetState. prun.
  repeat split; cells_solve.
Qed.

(** *** Deleting what was selected *)

Lemma select_stores_detail
    (net : network) (fields data : list (string * value)) (idText : string)
    (res : response) (p : page) :
  ToString (lookup_field "id" fields) = Ret idText ->
  net (length (requests (pipeline p))) (recording_request idText) = Ret res ->
  ok res = true ->
  resp_json res = Ret (VObj data) ->
  let w' := pipeline (pexec (handleSelectRecording net (VObj fields)) p) in
  cells w' SelectedRecording = VObj data
  /\ requests w' = requests (pipeline p) ++ [recording_request idText].
Proof.
  intros Hid Hnet Hok Hjson w'. subst w'. popen p.
  unfold handleSelectRecording, fetchRecording, map_detail_chunk_urls.
  prun. cbn [get]. rewrite Hid. prun. rewrite Hnet. prun. rewrite Hok. prun.
  rewrite Hjson. prun.
  cbn [get].
  destruct (nonempty (lookup_field "audioChunks" data)) as [[]|]; prun.
  - destruct (lookup_field "audioChunks" data); prun;
      try (destruct (chunk_urls _); prun); split; cells_solve.
  - destruct (truthy (lookup_field "audioUrl" data)); prun; split; cells_solve.
  - split; cells_solve.
Qed.

Lemma handleDelete_request
    (net : network) (fields : list (string * value)) (idText : string) (w : world) :
  cells w SelectedRecording = VObj fields ->
  ToString (lookup_field "id" fields) = Ret idText ->
  exists rest,
    requests (exec (handleDelete net) w) = requests w ++ delete_request idText :: rest.
Proof.
  intros Hsel Hid. wopen w. unfold handleDelete, resetState, fetchRecordings_begin. prun.
  rewrite Hsel. cbn [truthy negb get]. prun. rewrite Hid. prun.
  destruct (net _ _) as [res|e]; prun.
  - destruct (ok res); prun.
    + eexists. by rewrite <- app_assoc.
    + by eexists.
  - by eexists.
Qed.

Lemma pipeline_inner {A} (m : M A) (p : page) :
  pipeline (pexec (inner m) p) = exec m (pipeline p).
Proof. unfold pexec, inner, exec. by destruct (m (pipeline p)). Qed.

(** X22. Deleting after a recording has been opened deletes by the id found in
    the fetched detail, not by the id of the list entry that was clicked: the
    page asks for the detail of the entry's id and then sends the DELETE
    request for the id the detail carries (both ids having a text). *)
Theorem delete_uses_the_id_of_the_detail
    (net net' : network) (fields data : list (string * value))
    (entryId detailId : string) (res : response) (p : page) :
  let w := pipeline p in
  ToString (lookup_field "id" fields) = Ret entryId ->
  ToString (lookup_field "id" data) = Ret detailId ->
  net (length (requests w)) (recording_request entryId) = Ret res ->
  ok res = true ->
  resp_json res = Ret (VObj data) ->
  let p' := play [SelectRecording net (VObj fields); DeleteClicked net'] p in
  exists rest,
    requests (pipeline p')
    = requests w ++ recording_request entryId :: delete_request detailId :: rest.
Proof.
  intros w Hentry Hdetail Hnet Hok Hjson p'. subst w p'.
  pose proof (select_stores_detail net fields data entryId res p Hentry Hnet Hok Hjson)
    as [Hsel Hreq].
  change (play [SelectRecording net (VObj fields); DeleteClicked net'] p)
    with (pexec (inner (handleDelete net'))
            (pexec (handleSelectRecording net (VObj fields)) p)).
  revert Hsel Hreq. generalize (pexec (handleSelectRecording net (VObj fields)) p).
  intros p1 Hsel Hreq.
  destruct (handleDelete_request net' data detailId (pipeline p1) Hsel Hdetail)
    as [rest Hrest].
  exists rest. rewrite pipeline_inner, Hrest, Hreq, <- app_assoc. done.
Qed.

(** *** The audio of a completed result *)

Lemma publish_result_audio (payload : list (string * value)) (w : world) :
  truthy (lookup_field "audioUrl" payload) = true ->
  let w' := exec (publish_result (VObj payload)) w in
  cells w' UploadedAudioUrl = lookup_field "audioUrl" payload
  /\ cells w' ShowAudioPlayer = VBool true
  /\ cells w' AudioChunks = cells w AudioChunks
  /\ cells w' CurrentChunkIndex = cells w CurrentChunkIndex
  /\ cells w' IsEditingBeforeSave = VBool true
  /\ cells w' PollingInterval = cells w PollingInterval
  /\ cells w' ExecutionArn = cells w ExecutionArn
  /\ timers w' = timers w
  /\ requests w' = requests w ++ [list_request].
Proof.
  intros Hurl w'. subst w'. wopen w.
  unfold publish_result, fetchRecordings_begin. prun. cbn [get]. prun.
  rewrite Hurl. prun. repeat split; cells_solve.
Qed.

(** X23. When a poll tick reports completion with a result (not wrapped in a
    string) that carries an audio URL, the URL is stored and the player is
    shown, but the chunk list and the index are left as they were, even when
    the result also lists chunks: here the audio URL takes precedence over the
    chunks, the other way round than in [fetchRecording].  The interval is
    cleared, the execution id is reset, the page enters edit mode and the list
    refresh is requested. *)
Theorem completed_tick_audio_url_beside_chunks
    (interval : Z) (res : response) (data result : list (string * value)) (w : world) :
  resp_json res = Ret (VObj data) ->
  lookup_field "status" data = VStr "completed" ->
  lookup_field "result" data = VObj result ->
  lookup_field "result" result = VUndef ->
  truthy (lookup_field "audioUrl" result) = true ->
  let w' := exec (tick_resume interval (Ret res)) w in
  cells w' UploadedAudioUrl = lookup_field "audioUrl" result
  /\ cells w' ShowAudioPlayer = VBool true
  /\ cells w' AudioChunks = cells w AudioChunks
  /\ cells w' CurrentChunkIndex = cells w CurrentChunkIndex
  /\ cells w' IsEditingBeforeSave = VBool true
  /\ cells w' PollingInterval = VNull
  /\ cells w' ExecutionArn = VNull
  /\ timers w' !! interval = None
  /\ requests w' = requests w ++ [list_request].
Proof.
  intros Hjson Hstatus Hresult Hplain Hurl w'. subst w'.
  unfold tick_resume, decode_nested, setPollingInterval, polling_cleanup, clearInterval.
  munfold. cbn. rewrite Hjson. cbn. rewrite Hstatus. cbn. rewrite Hresult. cbn.
  rewrite Hplain.
  destruct (cells w PollingInterval) as [| |b|n|s'|l|l] eqn:Hold; cbn; rewrite ?Hold; cbn.
  all: try destruct b; try destruct (negb (n =? 0)%Z);
    try destruct (negb (String.eqb s' "")); cbn.
  all: match goal with |- context [publish_result (VObj ?d) ?w0] =>
         pose proof (publish_result_audio d w0 Hurl) as Hp;
         unfold exec in Hp; destruct (publish_result (VObj d) w0) as [[[]|e] w1]
       end.
  all: cbn in *;
    destruct Hp as (Hu & Hshow & Hch & Hidx & Hedit & Hpi & Harn & Htm & Hreq).
  all: repeat split; cells_solve;
    rewrite ?Hu, ?Hshow, ?Hch, ?Hidx, ?Hedit, ?Hpi, ?Harn, ?Htm, ?Hreq;
    cells_solve; timers_solve.
Qed.

(** *** Refreshing the list *)






End WholePage.

End Properties.
(** ** The properties on the sample data *)

#[local] Existing Instance sample_platform.

(** C1. The code does not do what the claim says.  A poll for ["E1"] has
    been started and has not ticked yet when a new recording session starts.
    The session start resets the stored execution id, as the completed and
    the failed branch of a tick do, but unlike them it does not clear the
    interval: the interval of ["E1"] stays live and fires during the new
    session.  When the answer comes while the session is still recording, it
    updates the progress message of the new session.  When the answer is
    still in flight at the time the new session has established the poll for
    ["E2"], and it reports completion, the fields of ["E1"] are published
    into the new session and the poll of ["E2"] is stopped: its interval is
    cleared and never fires. *)
Lemma stale_poll_survives_new_session :
  let w1 := polling_world in
  let w2 := step (StartRecording true) w1 in
  let w3 := step (TimerFires 1) w2 in
  let w4 := step (Delivered 0 (Ret running_status)) w3 in
  let w5 := step (RecorderStopped (sample_net (async_start "E2")) sample_blob) w3 in
  let w6 := step (Delivered 0 (Ret (completed_with "From E1"))) w5 in
  cells w1 ExecutionArn = VStr "E1"
  /\ req_method <$> requests w1 = ["POST"; "PUT"; "POST"]
  /\ cells w2 ExecutionArn = VNull
  /\ cells w2 ProcessingStatus = VNull
  /\ timers w2 !! 1%Z = Some (mkTimer (VStr "E1") POLL_PERIOD)
  /\ requests w3 = requests w2 ++ [status_request "E1"]
  /\ inflight w3 = [PendingTick 1 (VStr "E1")]
  /\ cells w4 ProcessingStatus = VStr "処理中... (40%)"
  /\ cells w4 IsRecording = VBool true
  /\ timers w5 !! 1%Z = None
  /\ timers w5 !! 2%Z = Some (mkTimer (VStr "E2") POLL_PERIOD)
  /\ cells w5 ExecutionArn = VStr "E2"
  /\ inflight w5 = [PendingTick 1 (VStr "E1")]
  /\ cells w6 Title = VStr "From E1"
  /\ cells w6 IsEditingBeforeSave = VBool true
  /\ cells w6 ExecutionArn = VNull
  /\ cells w6 PollingInterval = VNull
  /\ timers w6 !! 2%Z = None
  /\ step (TimerFires 2) w6 = w6.
Proof. vm_compute. repeat split; reflexivity. Qed.

Lemma one_poll_at_a_time_witness :
  let before :=
    [RecorderStopped (sample_net (async_start "E1")) sample_blob; StartRecording true] in
  let after := [TimerFires 1; TimerFires 2; Delivered 0 (Ret running_status)] in
  let w := run before initial_world in
  let w2 := run after (exec (startPolling (VStr "E2")) w) in
  (1 < nextTimer w)%Z
  /\ timers w2 !! 1%Z = None
  /\ step (TimerFires 1) w2 = w2.
Proof.
  cbv zeta. split; [by vm_compute|].
  apply (one_poll_at_a_time
           [RecorderStopped (sample_net (async_start "E1")) sample_blob; StartRecording true]
           [TimerFires 1; TimerFires 2; Delivered 0 (Ret running_status)]
           (VStr "E2")).
  by vm_compute.
Defined.



Lemma sample_chunk_goes_through (net : network) :
  (forall n req, n < 2 -> net n req = sample_net (empty_response 500) n req) ->
  chunk_goes_through net 0 0 sample_blob (sample_url 0) (sample_key 0).
Proof.
  intros Hnet. unfold chunk_goes_through.
  exists (sample_presign
            (presign_request (filename_of 0 0 sample_blob) (contentType_of sample_blob))),
    (VObj [("presignedUrl", VStr (sample_url 0)); ("key", sample_key 0)]),
    (VStr (sample_url 0)), (empty_response 200).
  rewrite !Hnet by lia. repeat split. by eexists.
Qed.



(** C4, as stated, fails: a response with a presigned URL and nothing to
    derive a key from is refused, and so is one with a key and no presigned
    URL, although one of the two is present each time. *)
Lemma one_missing_part_is_refused :
  let url_only := VObj [("presignedUrl", VStr "https://s3.test/a")] in
  let key_only := VObj [("key", VStr "uploads/a.webm")] in
  truthy (lookup_field "presignedUrl" [("presignedUrl", VStr "https://s3.test/a")]) = true
  /\ fst (extractPresigned url_only initial_world) = Throw (Error msg_presign_response)
  /\ truthy (lookup_field "key" [("key", VStr "uploads/a.webm")]) = true
  /\ fst (extractPresigned key_only initial_world) = Throw (Error msg_presign_response).
Proof. vm_compute. repeat split; reflexivity. Qed.

Lemma extractPresigned_outcome_witness :
  let audioUrl := "https://koenote-audio.s3.amazonaws.com/uploads/a.webm" in
  let fields := [("presignedUrl", VStr "https://s3.test/a"); ("audioUrl", VStr audioUrl)] in
  (truthy (lookup_field "key" fields) = false ->
   truthy (lookup_field "audioUrl" fields) = true ->
   exists s, lookup_field "audioUrl" fields = VStr s)
  /\ exists seg,
       trailing_segment audioUrl seg
       /\ fst (extractPresigned (VObj fields) initial_world) =
            (if truthy (VStr seg) then Ret (VStr "https://s3.test/a", VStr seg)
             else Throw (Error msg_presign_response)).
Proof.
  cbv zeta.
  assert (Hstring :
    truthy (lookup_field "key"
              [("presignedUrl", VStr "https://s3.test/a");
               ("audioUrl", VStr "https://koenote-audio.s3.amazonaws.com/uploads/a.webm")])
      = false ->
    truthy (lookup_field "audioUrl"
              [("presignedUrl", VStr "https://s3.test/a");
               ("audioUrl", VStr "https://koenote-audio.s3.amazonaws.com/uploads/a.webm")])
      = true ->
    exists s,
      lookup_field "audioUrl"
        [("presignedUrl", VStr "https://s3.test/a");
         ("audioUrl", VStr "https://koenote-audio.s3.amazonaws.com/uploads/a.webm")]
      = VStr s).
  { intros _ _. eexists. reflexivity. }
  split; [exact Hstring|].
  destruct (extractPresigned_outcome _ initial_world Hstring)
    as (key & _ & Hderived & _ & Hout).
  destruct (Hderived eq_refl _ eq_refl ltac:(discriminate)) as (seg & -> & Hseg).
  exists seg. split; [exact Hseg|]. exact Hout.
Defined.



Lemma uploadChunks_all_succeed_witness :
  let chunks := [sample_blob; sample_blob] in
  let net := sample_net (empty_response 500) in
  (forall i chunk, chunks !! i = Some chunk ->
     chunk_goes_through net (length (requests initial_world) + 2 * i) i chunk
       (sample_url i) (sample_key i))
  /\ fst (uploadChunks net chunks initial_world) = Ret [sample_key 0; sample_key 1]
  /\ req_method <$> requests (exec (uploadChunks net chunks) initial_world) =
       ["POST"; "PUT"; "POST"; "PUT"].
Proof.
  cbv zeta.
  assert (Hall : forall i chunk, [sample_blob; sample_blob] !! i = Some chunk ->
            chunk_goes_through (sample_net (empty_response 500))
              (length (requests initial_world) + 2 * i) i chunk
              (sample_url i) (sample_key i)).
  { intros [|[|i]] chunk Hc; cbn in Hc; [injection Hc as <-..|done].
    - by apply sample_chunk_goes_through.
    - unfold chunk_goes_through.
      exists (sample_presign
                (presign_request (filename_of 2 1 sample_blob) (contentType_of sample_blob))),
        (VObj [("presignedUrl", VStr (sample_url 1)); ("key", sample_key 1)]),
        (VStr (sample_url 1)), (empty_response 200).
      repeat split. by eexists. }
  split; [exact Hall|].
  destruct (uploadChunks_all_succeed (sample_net (empty_response 500))
              [sample_blob; sample_blob] sample_url sample_key initial_world Hall)
    as (Hout & Hreq & Hmethods & _).
  split; [exact Hout|]. rewrite Hreq. exact Hmethods.
Defined.


Lemma failing_ticks_keep_polling_witness :
  let rs := [Throw (TypeError "Failed to fetch"); Ret (empty_response 502);
             Throw (TypeError "Failed to fetch")] in
  let w' := poll_rounds 1 rs polling_world in
  timers polling_world !! 1%Z = Some (mkTimer (VStr "E1") POLL_PERIOD)
  /\ Forall (fun r => is_Some (request_error r)) rs
  /\ cells polling_world ProcessingStatus = VStr "音声処理中..."
  /\ timers w' = timers polling_world
  /\ requests w' = requests polling_world ++ replicate 3 (status_request "E1")
  /\ cells w' Status = VStr msg_status_fetch_failed
  /\ StatusIndicator w' = Ret (Some (VStr msg_status_fetch_failed)).
Proof.
  cbv zeta.
  assert (Hlive : timers polling_world !! 1%Z = Some (mkTimer (VStr "E1") POLL_PERIOD))
    by (by vm_compute).
  assert (Hfail : Forall (fun r => is_Some (request_error r))
            [Throw (TypeError "Failed to fetch"); Ret (empty_response 502);
             Throw (TypeError "Failed to fetch")])
    by (repeat constructor; eexists; reflexivity).
  split; [exact Hlive|]. split; [exact Hfail|]. split; [by vm_compute|].
  destruct (failing_ticks_keep_polling 1 _ "E1" _ polling_world Hlive eq_refl Hfail)
    as (Htimers & _ & Hrequests & _ & Hshown & _).
  split; [exact Htimers|]. split; [exact Hrequests|].
  destruct Hshown as (Hstatus & _ & Hpill); [discriminate|]. by split.
Defined.


#[local] Existing Instance sample_save_env.

Lemma keywords_round_trip_witness :
  let ks := ["sync"; "weekly report"] in
  let w := exec (handleKeywordsChange "sync,weekly report") initial_world in
  Forall clean_keyword ks
  /\ cells w Keywords = VArr (VStr <$> ks)
  /\ keywords_text w = Ret "sync, weekly report".
Proof.
  cbv zeta.
  assert (Hall : Forall clean_keyword ["sync"; "weekly report"]).
  { repeat constructor; by vm_compute. }
  assert (Hcell : cells (exec (handleKeywordsChange "sync,weekly report") initial_world)
                    Keywords = VArr (VStr <$> ["sync"; "weekly report"])).
  { by vm_compute. }
  split; [exact Hall|]. split; [exact Hcell|].
  by destruct (keywords_round_trip ["sync"; "weekly report"] _ Hall Hcell) as [-> _].
Defined.

Lemma trailing_separator_ignored_witness :
  is_keyword_separator "," = true
  /\ parse_keywords "sync, weekly," = parse_keywords "sync, weekly".
Proof.
  split; [reflexivity|].
  apply (trailing_separator_ignored "sync, weekly" ","). reflexivity.
Defined.

Lemma select_failure_blanks_fields_witness :
  let w' := pipeline (pexec (handleSelectRecording offline (VObj sample_entry)) opened_page) in
  cells w' SelectedRecording = VObj sample_entry /\ cells w' Title = VStr "".
Proof.
  cbv zeta.
  destruct (select_failure_blanks_fields offline sample_entry opened_page)
    as (Hsel & Htitle & _); [by vm_compute|].
  by split.
Defined.

Lemma select_success_shows_detail_witness :
  let net := answering (json_response 200 (VObj sample_detail)) in
  let w' := pipeline (pexec (handleSelectRecording net (VObj sample_entry)) initial_page) in
  cells w' SelectedRecording = VObj sample_detail
  /\ cells w' Title = VStr "Weekly sync"
  /\ cells w' ShowAudioPlayer = VBool true.
Proof.
  cbv zeta.
  destruct (select_success_shows_detail
              (answering (json_response 200 (VObj sample_detail)))
              sample_entry sample_detail "r1" (json_response 200 (VObj sample_detail))
              initial_page)
    as (Hsel & Htitle & _ & _ & _ & Hshow & _);
    [reflexivity|reflexivity|reflexivity|reflexivity| |by repeat split].
  right. exists [VStr "uploads/a.webm"; VStr "uploads/b.webm"],
    ["uploads/a.webm"; "uploads/b.webm"].
  split; [reflexivity|]. by repeat constructor.
Defined.

Lemma detail_chunks_take_precedence_witness :
  let net := answering (json_response 200 (VObj sample_detail)) in
  let w' := pipeline (pexec (handleSelectRecording net (VObj sample_entry)) initial_page) in
  AudioPlayer w' = AudioElement (chunk_url "uploads/a.webm").
Proof.
  cbv zeta.
  assert (Htexts : Forall2 (fun key text => ToString key = Ret text)
                     [VStr "uploads/a.webm"; VStr "uploads/b.webm"]
                     ["uploads/a.webm"; "uploads/b.webm"])
    by (by repeat constructor).
  by destruct (detail_chunks_take_precedence
                 (answering (json_response 200 (VObj sample_detail)))
                 sample_entry sample_detail "r1" (json_response 200 (VObj sample_detail))
                 [VStr "uploads/a.webm"; VStr "uploads/b.webm"]
                 "uploads/a.webm" ["uploads/b.webm"] initial_page
                 eq_refl eq_refl eq_refl eq_refl eq_refl Htexts)
    as (_ & _ & _ & _ & Hplayer).
Defined.

Lemma detail_without_chunks_keeps_old_chunks_witness :
  let net := answering (json_response 200 (VObj sample_detail_single)) in
  let w' := pipeline (pexec (handleSelectRecording net (VObj sample_entry)) opened_page) in
  cells (pipeline opened_page) AudioChunks
    = VArr [chunk_url "uploads/a.webm"; chunk_url "uploads/b.webm"]
  /\ cells w' UploadedAudioUrl = VStr "https://cdn.koenote.test/r2.webm"
  /\ AudioPlayer w' = AudioElement (chunk_url "uploads/a.webm").
Proof.
  cbv zeta.
  assert (Holds : cells (pipeline opened_page) AudioChunks
                  = VArr [chunk_url "uploads/a.webm";
                          chunk_url "uploads/b.webm"]) by by vm_compute.
  split; [exact Holds|].
  destruct (detail_without_chunks_keeps_old_chunks
              (answering (json_response 200 (VObj sample_detail_single)))
              sample_entry sample_detail_single "r1"
              (json_response 200 (VObj sample_detail_single))
              [chunk_url "uploads/a.webm"; chunk_url "uploads/b.webm"]
              0 (chunk_url "uploads/a.webm") opened_page)
    as (Hurl & _ & _ & Hplayer);
    [reflexivity|reflexivity|reflexivity|reflexivity|reflexivity|reflexivity|exact Holds
    |by vm_compute|lia|reflexivity|].
  by split.
Defined.

Lemma handleDelete_unsuccessful_keeps_state_witness :
  let w := pipeline opened_page in
  let w' := exec (handleDelete (answering (empty_response 500))) w in
  truthy (cells w SelectedRecording) = true
  /\ cells w' SelectedRecording = cells w SelectedRecording
  /\ requests w' = requests w ++ [delete_request "r1-v2"]
  /\ timers w' = timers w
  /\ truthy (cells initial_world SelectedRecording) = false
  /\ exec (handleDelete (answering (empty_response 204))) initial_world = initial_world.
Proof.
  cbv zeta.
  assert (Hsel : truthy (cells (pipeline opened_page) SelectedRecording) = true)
    by (by vm_compute).
  split; [exact Hsel|].
  destruct (handleDelete_unsuccessful_keeps_state (answering (empty_response 500))
              (pipeline opened_page))
    as (_ & Hfailed & Hcells & Htimers & _); [right; by vm_compute|].
  destruct (Hfailed Hsel) as [_ Hreq].
  split; [by apply Hcells|]. split; [rewrite Hreq; by vm_compute|].
  split; [exact Htimers|]. split; [reflexivity|].
  destruct (handleDelete_unsuccessful_keeps_state (answering (empty_response 204))
              initial_world)
    as (Hnothing & _); [left; reflexivity|].
  by apply Hnothing.
Defined.

Lemma handleDelete_success_resets_and_refreshes_witness :
  let w := pipeline opened_page in
  let w' := exec (handleDelete (answering (empty_response 204))) w in
  cells w' SelectedRecording = VNull
  /\ cells w' Status = VStr "削除しました"
  /\ inflight w' = inflight w ++ [PendingList].
Proof.
  cbv zeta.
  destruct (handleDelete_success_resets_and_refreshes (answering (empty_response 204))
              "r1-v2" (empty_response 204) (pipeline opened_page))
    as (Hsel & _ & _ & _ & _ & _ & _ & _ & Hstatus & _ & _ & Hinflight & _);
    [by vm_compute|by vm_compute|reflexivity|reflexivity|].
  by repeat split.
Defined.

Lemma save_failure_keeps_edit_form_witness :
  let p' := pexec (saveRecording (answering (empty_response 500))) initial_page in
  view p' IsLoading = VBool false
  /\ cells (pipeline p') ErrorMessage = VStr "録音の保存中にエラーが発生しました。".
Proof.
  cbv zeta.
  destruct (save_failure_keeps_edit_form (answering (empty_response 500)) [] initial_page)
    as (Hload & _ & _ & Herr & _); [reflexivity|reflexivity|left; reflexivity|].
  by split.
Defined.

Lemma save_success_selects_and_refreshes_witness :
  let p' := pexec (saveRecording (answering (json_response 200 (VObj [])))) initial_page in
  cells (pipeline p') Status = VStr "保存しました"
  /\ cells (pipeline p') IsEditingBeforeSave = VBool false
  /\ inflight (pipeline p') = [PendingList].
Proof.
  cbv zeta.
  destruct (save_success_selects_and_refreshes (answering (json_response 200 (VObj [])))
              [] (json_response 200 (VObj [])) (VObj []) initial_page)
    as (_ & _ & Hedit & _ & Hstatus & _ & _ & Hinflight);
    [reflexivity|reflexivity|reflexivity|reflexivity|reflexivity|].
  by repeat split.
Defined.

Lemma audio_ended_cycles_witness :
  let w := pipeline opened_page in
  cells w CurrentChunkIndex = VNum 0
  /\ cells (Nat.iter 3 (exec (handleAudioEnded true)) w) CurrentChunkIndex = VNum 1.
Proof.
  cbv zeta. split; [by vm_compute|].
  by destruct (audio_ended_cycles (pipeline opened_page)
                 [chunk_url "uploads/a.webm"; chunk_url "uploads/b.webm"]
                 0 3)
    as (-> & _); [by vm_compute|by vm_compute|cbn; lia|].
Defined.

Lemma audio_ended_outside_document_witness :
  exec (handleAudioEnded false) (pipeline opened_page) = pipeline opened_page.
Proof.
  destruct (audio_ended_outside_document (pipeline opened_page)
              [chunk_url "uploads/a.webm"; chunk_url "uploads/b.webm"] 0)
    as (Hstay & _); [by vm_compute|by vm_compute|].
  apply Hstay. cbn. lia.
Defined.

Lemma uploadChunks_one_key_per_chunk_witness :
  let net := sample_net (empty_response 500) in
  fst (uploadChunks net [sample_blob] initial_world) = Ret [sample_key 0]
  /\ fst (createChunks sample_blob initial_world) = Ret [sample_blob]
  /\ Nat.eqb (length [sample_key 0]) 0 = false.
Proof.
  cbv zeta.
  assert (Hkeys : fst (uploadChunks (sample_net (empty_response 500)) [sample_blob]
                         initial_world) = Ret [sample_key 0]) by by vm_compute.
  split; [exact Hkeys|]. split; [by vm_compute|].
  destruct (uploadChunks_one_key_per_chunk (sample_net (empty_response 500)) sample_blob
              [sample_blob] [sample_key 0] initial_world initial_world Hkeys)
    as (_ & Hcheck).
  apply Hcheck. by vm_compute.
Defined.

Lemma processAudio_failure_starts_no_poll_witness :
  let e := Error (msg_presign_request 500) in
  let w' := exec (processAudio (refusing_net 3) sample_blob) polling_world in
  fst (processAudio (refusing_net 3) sample_blob polling_world) = Throw e
  /\ cells w' ProcessingStatus = VNull
  /\ timers w' = timers polling_world.
Proof.
  cbv zeta.
  assert (He : fst (processAudio (refusing_net 3) sample_blob polling_world)
               = Throw (Error (msg_presign_request 500))) by by vm_compute.
  split; [exact He|].
  destruct (processAudio_failure_starts_no_poll (refusing_net 3) sample_blob
              (Error (msg_presign_request 500)) polling_world He)
    as (_ & Hproc & _ & Htimers & _).
  by split.
Defined.

Lemma tick_in_progress_only_updates_message_witness :
  let w' := exec (tick_resume 1 (Ret running_status)) polling_world in
  cells w' ProcessingStatus = VStr "処理中... (40%)"
  /\ cells w' Status = cells polling_world Status
  /\ timers w' = timers polling_world.
Proof.
  cbv zeta.
  destruct (tick_in_progress_only_updates_message 1 running_status
              [("status", VStr "running"); ("percentComplete", VNum 40)] polling_world)
    as ([Hmsg Hframe] & _ & Htimers & _); [reflexivity|reflexivity|reflexivity|].
  split; [exact Hmsg|]. split; [by apply Hframe|exact Htimers].
Defined.

Lemma delete_uses_the_id_of_the_detail_witness :
  let net := answering (json_response 200 (VObj sample_detail)) in
  let p' := play [SelectRecording net (VObj sample_entry);
                  DeleteClicked (answering (empty_response 500))] initial_page in
  exists rest,
    requests (pipeline p')
    = recording_request "r1" :: delete_request "r1-v2" :: rest.
Proof.
  cbv zeta.
  apply (delete_uses_the_id_of_the_detail
           (answering (json_response 200 (VObj sample_detail)))
           (answering (empty_response 500))
           sample_entry sample_detail "r1" "r1-v2"
           (json_response 200 (VObj sample_detail))
           initial_page); reflexivity.
Defined.

Lemma completed_tick_audio_url_beside_chunks_witness :
  let w' := exec (tick_resume 1 (Ret completed_directly)) polling_world in
  cells w' UploadedAudioUrl = VStr "https://cdn.koenote.test/full.webm"
  /\ cells w' AudioChunks = cells polling_world AudioChunks
  /\ timers w' !! 1%Z = None.
Proof.
  cbv zeta.
  destruct (completed_tick_audio_url_beside_chunks 1 completed_directly
              [("status", VStr "completed"); ("result", VObj direct_result)]
              direct_result polling_world)
    as (Hurl & _ & Hchunks & _ & _ & _ & _ & Htimer & _);
    [reflexivity|reflexivity|reflexivity|reflexivity|reflexivity|].
  by repeat split.
Defined.

